(** * gpufilter: the summed-area-table driver (src/sat.cu)

    A shallow embedding of [sat] and [main] of sat.cu.  The driver is a thin
    layer over collaborators that live in headers outside the source tree
    (initial_setup, print_info, ref_sat_cpu, sat_gpu, check_cpu_reference);
    the driver is written over an interface of those collaborators, and a
    model of each one, following the design document, instantiates it. *)

From Stdlib Require Import ZArith Bool String Ascii Lia.
From Stdlib Require Import QArith Qminmax Qabs Qpower Lqa.
From Stdlib Require Import Floats.SpecFloat.
From stdpp Require Import base tactics option list vector.

Local Open Scope Z_scope.

(** ** Single-precision floats

    The C++ type [float] is IEEE-754 binary32: 24 bits of mantissa, infinities
    at exponent 128, round to nearest even.  The operations are those of the
    standard library's executable specification of floating-point numbers. *)

Module F32.

Definition prec : Z := 24.
Definition emax : Z := 128.

Definition float : Type := spec_float.

Definition add : float → float → float := SFadd prec emax.
Definition sub : float → float → float := SFsub prec emax.
Definition mul : float → float → float := SFmul prec emax.
Definition div : float → float → float := SFdiv prec emax.
Definition abs : float → float := SFabs.
Definition opp : float → float := SFopp.
Definition ltb : float → float → bool := SFltb.
Definition leb : float → float → bool := SFleb.

(** Conversion of an integer constant (always exact for |z| < 2^24). *)
Definition of_Z (z : Z) : float := binary_normalize prec emax z 0 false.

Definition zero : float := S754_zero false.
Definition one : float := Eval cbv in of_Z 1.
Definition minus_one : float := Eval cbv in of_Z (-1).

Definition is_nan (x : float) : bool :=
  match x with S754_nan => true | _ => false end.

(** [std::isfinite]. *)
Definition is_finite (x : float) : bool :=
  match x with S754_zero _ | S754_finite _ _ _ => true | _ => false end.

End F32.

Abbreviation float := F32.float.

(** ** Machine integers

    [int] is a 32-bit two's complement integer, held in [Z]; the only
    arithmetic the driver performs on it is the product [width * height],
    which wraps around on overflow. *)

Definition int_wrap (z : Z) : Z := (z + 2^31) mod 2^32 - 2^31.
Definition int_mul (a b : Z) : Z := int_wrap (a * b).

(** ** Data of the driver *)

(** [#define ORDER 1], the default filter order. *)
Definition ORDER : nat := 1.

(** [gpufilter::BorderType]: zero, clamp, repeat or reflect. *)
Inductive BorderType : Type :=
| bt_zero
| bt_clamp
| bt_repeat
| bt_reflect.

(** [gpufilter::Vector<float, ORDER + 1>]: a fixed-size array. *)
Definition weights : Type := vec float (ORDER + 1).

(** An image is a flat row-major buffer of samples. *)
Definition image : Type := list float.

(** The local variables of [main] that [initial_setup] fills in through its
    reference parameters. *)
Record main_locals : Type := MainLocals {
  l_width : Z;
  l_height : Z;
  l_runtimes : Z;
  l_btype : BorderType;
  l_border : Z;
  l_cpu_img : image;
  l_gpu_img : image;
  l_w : weights;
  l_a0border : Z;
  l_me : float;
  l_mre : float
}.

(** ** Effects

    A call either returns or does not (an exception, an abort or an exit
    inside a collaborator; the driver has no handler, so it propagates).
    The driver's observable behaviour is the sequence of collaborator calls
    it makes and of items it inserts into [std::cout]. *)

Inductive result (A : Type) : Type :=
| Returned (a : A)
| Aborted (why : string).
Arguments Returned {A} a.
Arguments Aborted {A} why.

Inductive out_item : Type :=
| Str (s : string)      (* a string literal *)
| Int (n : Z)           (* an int, here the macro ORDER *)
| Sci (x : float).      (* a float under std::scientific *)

Inductive event : Type :=
| Ev_print_info (width height : Z) (btype : BorderType)
                (border a0border : Z) (w : weights)
| Ev_ref_sat_cpu (width height : Z) (w : weights) (a0border : Z)
                 (btype : BorderType)
| Ev_sat_gpu_false (width height runtimes : Z) (w : weights)
| Ev_sat_gpu_true (width height runtimes : Z) (w : weights) (border : Z)
                  (btype : BorderType)
| Ev_check_cpu_reference (ne : Z)
| Ev_cout (item : out_item).

Record M (A : Type) : Type := MkM {
  trace : list event;
  outcome : result A
}.
Arguments MkM {A} trace outcome.
Arguments trace {A} m.
Arguments outcome {A} m.

#[global] Instance M_ret : MRet M := λ A a, MkM [] (Returned a).

#[global] Instance M_bind : MBind M := λ A B k m,
  match outcome m with
  | Returned a => MkM (trace m ++ trace (k a)) (outcome (k a))
  | Aborted why => MkM (trace m) (Aborted why)
  end.

(** A call to a collaborator: recorded, then its result. *)
Definition call {A : Type} (e : event) (r : result A) : M A := MkM [e] r.

(** A call that is not recorded (initial_setup runs before anything else). *)
Definition lift {A : Type} (r : result A) : M A := MkM [] r.

(** [std::cout << item]. *)
Definition cout (item : out_item) : M unit := MkM [Ev_cout item] (Returned tt).

(** The collaborators of sat.cu, declared in headers outside the source
    tree.  Reference parameters that a collaborator writes are results;
    [const] ones are arguments only. *)
Class Collaborators : Type := {
  initial_setup : Z → list string → result main_locals;
  print_info : Z → Z → BorderType → Z → Z → weights → result unit;
  ref_sat_cpu : image → Z → Z → weights → Z → BorderType → result image;
  (* gpufilter::sat_gpu<false, ORDER> *)
  sat_gpu_false : image → Z → Z → Z → weights → result image;
  (* gpufilter::sat_gpu<true, ORDER> *)
  sat_gpu_true : image → Z → Z → Z → weights → Z → BorderType → result image;
  check_cpu_reference : image → image → Z → float → float → result (float * float)
}.

(** ** The driver, from sat.cu *)

Section Driver.

Context {C : Collaborators}.

(** [template<int R> void sat(...)], instantiated at [R = ORDER]; the
    image is the buffer [h_img] points to after the call. *)
Definition sat (h_img : image) (width height runtimes : Z) (w : weights)
    (border : Z) (btype : BorderType) : M image :=
  if border =? 0 then
    call (Ev_sat_gpu_false width height runtimes w)
         (sat_gpu_false h_img width height runtimes w)
  else if border >? 0 then
    call (Ev_sat_gpu_true width height runtimes w border btype)
         (sat_gpu_true h_img width height runtimes w border btype)
  else
    mret h_img.

(** [w[0] = 1.; w[1] = -1.; // this is sat] *)
Definition set_sat_weights (w : weights) : weights :=
  vinsert 1%fin F32.minus_one (vinsert 0%fin F32.one w).

(** [#define APPNAME "[sat_" << ORDER << "]"] followed by the header. *)
Definition cout_header : M unit :=
  cout (Str "[sat_");;
  cout (Int (Z.of_nat ORDER));;
  cout (Str "]");;
  cout (Str " [max-error] [max-relative-error]:").

Definition newline : string := String (ascii_of_nat 10) EmptyString.

(** [int main(int argc, char** argv)]; the value is the exit status. *)
Definition main (argc : Z) (argv : list string) : M Z :=
  l ← lift (initial_setup argc argv);
  let width := l_width l in
  let height := l_height l in
  let runtimes := l_runtimes l in
  let btype := l_btype l in
  let border := l_border l in
  let a0border := l_a0border l in
  let w := set_sat_weights (l_w l) in
  (if runtimes =? 1 then
     call (Ev_print_info width height btype border a0border w)
          (print_info width height btype border a0border w)
   else mret tt);;
  cpu_img ← call (Ev_ref_sat_cpu width height w a0border btype)
                 (ref_sat_cpu (l_cpu_img l) width height w a0border btype);
  gpu_img ← sat (l_gpu_img l) width height runtimes w border btype;
  '(me, mre) ← call (Ev_check_cpu_reference (int_mul width height))
                    (check_cpu_reference cpu_img gpu_img
                       (int_mul width height) (l_me l) (l_mre l));
  (if runtimes =? 1 then cout_header else mret tt);;
  cout (Str " ");;
  cout (Sci me);;
  cout (Str " ");;
  cout (Sci mre);;
  cout (Str newline);;
  mret 0.

(** The collaborators return on this run: [initial_setup] yields [l], the
    reference engine leaves [cpu] in its buffer, [sat] leaves [gpu], and
    the checker writes [me] and [mre]. *)
Definition run_returns (argc : Z) (argv : list string) (l : main_locals)
    (cpu gpu : image) (me mre : float) : Prop :=
  let w := set_sat_weights (l_w l) in
  initial_setup argc argv = Returned l
  ∧ (l_runtimes l = 1 →
     print_info (l_width l) (l_height l) (l_btype l) (l_border l)
                (l_a0border l) w = Returned tt)
  ∧ ref_sat_cpu (l_cpu_img l) (l_width l) (l_height l) w (l_a0border l)
                (l_btype l) = Returned cpu
  ∧ outcome (sat (l_gpu_img l) (l_width l) (l_height l) (l_runtimes l) w
                 (l_border l) (l_btype l)) = Returned gpu
  ∧ check_cpu_reference cpu gpu (int_mul (l_width l) (l_height l))
                        (l_me l) (l_mre l) = Returned (me, mre).

End Driver.

(** ** Observations on a trace *)

(** The weight vector a call passes, if it passes one. *)
Definition event_weights (e : event) : option weights :=
  match e with
  | Ev_print_info _ _ _ _ _ w => Some w
  | Ev_ref_sat_cpu _ _ w _ _ => Some w
  | Ev_sat_gpu_false _ _ _ w => Some w
  | Ev_sat_gpu_true _ _ _ w _ _ => Some w
  | Ev_check_cpu_reference _ => None
  | Ev_cout _ => None
  end.

(** Parallel filtering work is dispatched by the two [sat_gpu] variants. *)
Definition is_dispatch (e : event) : bool :=
  match e with
  | Ev_sat_gpu_false _ _ _ _ | Ev_sat_gpu_true _ _ _ _ _ _ => true
  | _ => false
  end.

(** What a run writes to the console: print_info's report and the items
    the driver inserts into [std::cout]. *)
Definition is_console (e : event) : bool :=
  match e with
  | Ev_print_info _ _ _ _ _ _ | Ev_cout _ => true
  | _ => false
  end.

Definition console (t : list event) : list event := List.filter is_console t.

(** The weights of a summed-area table. *)
Definition sat_weights : weights := [# F32.one; F32.minus_one].

(** The line that reports the two error scalars. *)
Definition error_line (me mre : float) : list event :=
  [Ev_cout (Str " "); Ev_cout (Sci me); Ev_cout (Str " "); Ev_cout (Sci mre);
   Ev_cout (Str newline)].

(** The header of a debugging run. *)
Definition header_line : list event :=
  [Ev_cout (Str "[sat_"); Ev_cout (Int (Z.of_nat ORDER)); Ev_cout (Str "]");
   Ev_cout (Str " [max-error] [max-relative-error]:")].

(** ** Models of the collaborators

    None of the headers sat.cu includes is in the source tree; every
    definition of this module is modelled from the design document, section
    by section. *)

Module Model.

(** *** Border policy *)

(** Modelled from the spec: the border policy (section 4.1; the header that
    defines it is not in the source tree).  A requested coordinate [i] on an
    axis of extent [n] is mapped to the stored coordinate whose sample is
    used, or to [None] where the sample is 0.  In-range coordinates are
    stored ones; out of range, [zero] gives 0, [clamp] the nearest in-range
    coordinate, [repeat] the coordinate modulo [n], and [reflect] the
    coordinate mirrored at the boundary without duplicating the edge sample
    (period [2(n-1)]). *)
Definition border_coord (bt : BorderType) (n i : Z) : option Z :=
  if (0 <=? i) && (i <? n) then Some i
  else match bt with
       | bt_zero => None
       | bt_clamp => Some (Z.max 0 (Z.min (n - 1) i))
       | bt_repeat => Some (i mod n)
       | bt_reflect =>
           let p := 2 * (n - 1) in
           if p <=? 0 then Some 0
           else let j := i mod p in Some (if j <? n then j else p - j)
       end.

(** The stored sample at a coordinate the policy returned. *)
Definition pixel (l : list float) (i : Z) : float :=
  if i <? 0 then F32.zero else default F32.zero (l !! Z.to_nat i).

(** Modelled from the spec: the sample of a row (or column) [line] at
    offset [i] under policy [bt] (section 4.1). *)
Definition border_sample (bt : BorderType) (line : list float) (i : Z) : float :=
  match border_coord bt (Z.of_nat (length line)) i with
  | Some j => pixel line j
  | None => F32.zero
  end.

(** Modelled from the spec: the sample of a [width] x [height] image at row
    [r], column [c], the policy applied on each axis (section 4.1). *)
Definition border_sample2 (bt : BorderType) (img : image) (width height : Z)
    (r c : Z) : float :=
  match border_coord bt height r, border_coord bt width c with
  | Some r', Some c' => pixel img (r' * width + c')
  | _, _ => F32.zero
  end.

(** *** The recursive filter *)

(** Modelled from the spec: one step of the recurrence of section 4.2 with
    feedforward weight [w[0]] and feedback weights [w[1..R]] (the header of
    the recursive filter is not in the source tree); [prev] holds the previous
    outputs, most recent first.  The stored feedback weights enter negated,
    [y[i] = w[0]*x[i] - sum_k w[k]*y[i-k]]: the reading under which the
    driver's weights {1, -1} are the running sum ("this is sat"). *)
Definition fwd (w : list float) (prev : list float) (x : float) : float :=
  fold_left (λ acc (wy : float * float), F32.sub acc (F32.mul wy.1 wy.2))
            (zip (tail w) prev)
            (F32.mul (default F32.zero (head w)) x).

(** The feedback state after output [y]. *)
Definition shift (y : float) (prev : list float) : list float :=
  take (length prev) (y :: prev).

(** Modelled from the spec: the recurrence over a line, in increasing
    coordinate order, from the state [prev] (section 4.2). *)
Fixpoint rec_filter (w prev xs : list float) : list float :=
  match xs with
  | [] => []
  | x :: xs' => let y := fwd w prev x in y :: rec_filter w (shift y prev) xs'
  end.

(** The feedback state after a line. *)
Fixpoint rec_state (w prev xs : list float) : list float :=
  match xs with
  | [] => prev
  | x :: xs' => rec_state w (shift (fwd w prev x) prev) xs'
  end.

Definition zero_state (w : list float) : list float :=
  replicate (length (tail w)) F32.zero.

(** *** Images as lists of lines *)

Definition rows_of (width height : nat) (img : image) : list (list float) :=
  (λ r, take width (drop (r * width) img)) <$> seq 0 height.

Definition transpose (width : nat) (rows : list (list float)) : list (list float) :=
  (λ c, (λ row : list float, default F32.zero (row !! c)) <$> rows) <$> seq 0 width.

(** Modelled from the spec: the two passes of section 4.7, [line_pass]
    along every row, then along every column. *)
Definition two_passes (line_pass : list float → list float)
    (width height : nat) (img : image) : image :=
  let rows := line_pass <$> rows_of width height img in
  let cols := line_pass <$> transpose width rows in
  concat (transpose height cols).

(** Modelled from the spec: the image extended by [pad] samples on every
    side, its content outside the stored image given by the border policy
    (section 4.3). *)
Definition extend (bt : BorderType) (pad : Z) (img : image) (width height : Z)
    : image :=
  r ← seqZ (- pad) (height + 2 * pad);
  (λ c, border_sample2 bt img width height r c) <$> seqZ (- pad) (width + 2 * pad).

(** The stored image inside an extended one. *)
Definition crop (pad : nat) (width height : nat) (ext : image) : image :=
  concat ((λ row, take width (drop pad row))
            <$> take height (drop pad (rows_of (width + 2 * pad) (height + 2 * pad) ext))).

(** Modelled from the spec: configuration that an engine rejects before
    any work (section 7): a negative dimension or border, or a buffer that
    is not [width * height] samples. *)
Definition bad_config (img : image) (width height pad : Z) : bool :=
  (width <? 0) || (height <? 0) || (pad <? 0)
  || negb (Z.of_nat (length img) =? width * height).

Definition config_error {A : Type} : result A :=
  Aborted "configuration error".

(** *** Reference engine *)

(** Modelled from the spec: ref_sat_cpu (section 4.2; alg0_cpu.h is not in
    the source tree).  The sequential recurrence along every row and then
    every column, from a zero state, over the image extended by [a0border]
    samples of the border policy; the stored part is what remains in the
    buffer. *)
Definition ref_sat_cpu (img : image) (width height : Z) (w : weights)
    (a0border : Z) (btype : BorderType) : result image :=
  if bad_config img width height a0border then config_error
  else
    let w := vec_to_list w in
    let ext := extend btype a0border img width height in
    let out := two_passes (rec_filter w (zero_state w))
                 (Z.to_nat (width + 2 * a0border))
                 (Z.to_nat (height + 2 * a0border)) ext in
    Returned (crop (Z.to_nat a0border) (Z.to_nat width) (Z.to_nat height) out).

(** *** Accelerated engine *)

(** Modelled from the spec: the side of a tile (section 3: 32 x 32). *)
Definition TILE : nat := 32.

(** Modelled from the spec: the tile decomposer along a line (section
    4.3): ceil(n / T) tiles of side [T], the last one partially filled. *)
Definition tiles_of (T : nat) (line : list float) : list (list float) :=
  (λ k, take T (drop (k * T) line)) <$> seq 0 ((length line + T - 1) / T)%nat.

(** Modelled from the spec: the local filter stage (section 4.4): the
    recurrence from a zero incoming carry, and the outgoing carry. *)
Definition local_filter (w tile : list float) : list float :=
  rec_filter w (zero_state w) tile.

Definition local_carry (w tile : list float) : list float :=
  rec_state w (zero_state w) tile.

(** Modelled from the spec: the transfer map (section 4.4): the additive
    effect of an incoming carry [c] on the [n] samples of a tile, and on the
    carry that leaves it. *)
Definition transfer (w c : list float) (n : nat) : list float :=
  rec_filter w c (replicate n F32.zero).

Definition transfer_carry (w c : list float) (n : nat) : list float :=
  rec_state w c (replicate n F32.zero).

(** Modelled from the spec: the carry propagation stage (section 4.5): the
    true incoming carry of every tile of a line, by a scan over the tiles in
    order. *)
Fixpoint carries (w c : list float) (tiles : list (list float))
    : list (list float) :=
  match tiles with
  | [] => []
  | t :: tiles' =>
      c :: carries w (zip_with F32.add (local_carry w t)
                               (transfer_carry w c (length t))) tiles'
  end.

(** Modelled from the spec: the fix-up stage (section 4.6): local output
    plus the transferred carry. *)
Definition fixup (w : list float) (tile c : list float) : list float :=
  zip_with F32.add (local_filter w tile) (transfer w c (length tile)).

(** Modelled from the spec: one direction of the pipeline over one line of
    the image (sections 4.4 to 4.6 in sequence). *)
Definition tiled_pass (T : nat) (w line : list float) : list float :=
  let tiles := tiles_of T line in
  concat (zip_with (fixup w) tiles (carries w (zero_state w) tiles)).

(** Modelled from the spec: gpufilter::sat_gpu<false, R> (sections 4.3 to
    4.7; sat_gpu.cuh is not in the source tree).  Row pass, then column
    pass, each one local filter, carry propagation and fix-up over tiles of
    side [TILE]; the repetitions only serve timing. *)
Definition sat_gpu_false (h_img : image) (width height runtimes : Z)
    (w : weights) : result image :=
  if bad_config h_img width height 0 then config_error
  else
    Returned (two_passes (tiled_pass TILE (vec_to_list w))
                (Z.to_nat width) (Z.to_nat height) h_img).

(** Modelled from the spec: gpufilter::sat_gpu<true, R> (section 4.3).
    [border] tiles are prepended and appended on every side, their content
    defined by the border policy, and the same pipeline runs on the
    extension. *)
Definition sat_gpu_true (h_img : image) (width height runtimes : Z)
    (w : weights) (border : Z) (btype : BorderType) : result image :=
  if bad_config h_img width height border then config_error
  else
    let pad := border * Z.of_nat TILE in
    let ext := extend btype pad h_img width height in
    let out := two_passes (tiled_pass TILE (vec_to_list w))
                 (Z.to_nat (width + 2 * pad)) (Z.to_nat (height + 2 * pad)) ext in
    Returned (crop (Z.to_nat pad) (Z.to_nat width) (Z.to_nat height) out).

(** *** Accuracy checker *)

Definition abs_err (cpu gpu : float) : float := F32.abs (F32.sub gpu cpu).
Definition rel_err (cpu gpu : float) : float :=
  F32.div (abs_err cpu gpu) (F32.abs cpu).

(** The running maximum: [a] where it exceeds [m]. *)
Definition fmax (m a : float) : float := if F32.ltb m a then a else m.

Definition check_step (acc : float * float) (p : float * float)
    : float * float :=
  let '(cpu, gpu) := p in
  (fmax acc.1 (abs_err cpu gpu),
   if F32.ltb F32.zero (F32.abs cpu) then fmax acc.2 (rel_err cpu gpu)
   else acc.2).

(** Modelled from the spec: check_cpu_reference (section 4.8; its header is
    not in the source tree).  For each of the [ne] pixels, |gpu - cpu| and,
    where |cpu| > 0, |gpu - cpu| / |cpu|; the two maxima over the image are
    the results written to [me] and [mre]. *)
Definition check_cpu_reference (cpu gpu : image) (ne : Z) (me mre : float)
    : result (float * float) :=
  Returned (fold_left check_step
              (zip (take (Z.to_nat ne) cpu) (take (Z.to_nat ne) gpu))
              (F32.zero, F32.zero)).

(** Modelled from the spec: print_info (section 6: the human-readable
    configuration; its header is not in the source tree).  It only writes
    to the console; the driver records the call. *)
Definition print_info (width height : Z) (btype : BorderType)
    (border a0border : Z) (w : weights) : result unit :=
  Returned tt.

End Model.

(** The modelled collaborators, behind a given [initial_setup] (command-line
    parsing and test-parameter setup are outside the design document). *)
Definition model_collaborators
    (setup : Z → list string → result main_locals) : Collaborators :=
  {| initial_setup := setup;
     print_info := Model.print_info;
     ref_sat_cpu := Model.ref_sat_cpu;
     sat_gpu_false := Model.sat_gpu_false;
     sat_gpu_true := Model.sat_gpu_true;
     check_cpu_reference := Model.check_cpu_reference |}.

(** ** Maxima of floats *)

(** [x] is a number (not NaN) of sign [s]. *)
Definition signed (s : bool) (x : float) : Prop :=
  match x with
  | S754_zero s' | S754_infinity s' | S754_finite s' _ _ => s' = s
  | S754_nan => False
  end.

(** No value of [xs] exceeds [m], and [m] is one of them or 0.  This is
    what a running maximum from 0 guarantees on any data, NaN included
    (every comparison with NaN is false). *)
Definition not_exceeded (m : float) (xs : list float) : Prop :=
  (∀ x, x ∈ xs → F32.ltb m x = false) ∧ (m ∈ xs ∨ m = F32.zero).

(** [m] is the maximum of the values [xs], 0 when there is none. *)
Definition is_max (m : float) (xs : list float) : Prop :=
  (∀ x, x ∈ xs → F32.leb x m = true) ∧ (m ∈ xs ∨ xs = [] ∧ m = F32.zero).

(** What the accuracy checker is to report, written from the float
    operations alone and not from anything the checker computes with: the
    values |gpu - cpu| of all pixels, and the values |gpu - cpu| / |cpu| of
    the pixels with |cpu| > 0.  A pixel is a pair (cpu, gpu) of samples at
    the same index. *)
Definition pixel_abs_errors (cpu gpu : image) : list float :=
  (λ p : float * float, SFabs (SFsub 24 128 p.2 p.1)) <$> zip cpu gpu.

Definition pixel_rel_errors (cpu gpu : image) : list float :=
  (λ p : float * float,
     SFdiv 24 128 (SFabs (SFsub 24 128 p.2 p.1)) (SFabs p.1))
    <$> List.filter (λ p : float * float, SFltb (S754_zero false) (SFabs p.1))
                    (zip cpu gpu).

(** ** Test data *)

Definition ones (n : nat) : image := replicate n F32.one.

(** The locals of a run on a 4 x 4 image of ones; the weights, [me] and
    [mre] start as zeros. *)
Definition locals_4x4 (runtimes border : Z) (btype : BorderType) : main_locals :=
  {| l_width := 4; l_height := 4; l_runtimes := runtimes; l_btype := btype;
     l_border := border; l_cpu_img := ones 16; l_gpu_img := ones 16;
     l_w := [# F32.zero; F32.zero]; l_a0border := 0;
     l_me := F32.zero; l_mre := F32.zero |}.

(** An [initial_setup] that yields the locals [l] whatever the command line. *)
Definition setup_with (l : main_locals) : Z → list string → result main_locals :=
  λ _ _, Returned l.

(** The summed-area table of an all-ones image, entry (r, c). *)
Definition ones_sat (r c : nat) : float :=
  F32.of_Z ((Z.of_nat r + 1) * (Z.of_nat c + 1)).

(** That table for the 4 x 4 image, row-major. *)
Definition sat_table_4x4 : image :=
  (λ i, ones_sat (i / 4) (i mod 4)) <$> seq 0 16.

(** A line of four samples, and two buffers of four pixels that differ. *)
Definition line_10_40 : list float := F32.of_Z <$> [10; 20; 30; 40].
Definition cpu_buffer : image := F32.of_Z <$> [2; 0; -4; 8].
Definition gpu_buffer : image := F32.of_Z <$> [3; 5; -4; 7].

(** The modelled collaborators behind a setup that yields [locals_4x4]. *)
Definition fixture (runtimes border : Z) (btype : BorderType) : Collaborators :=
  model_collaborators (setup_with (locals_4x4 runtimes border btype)).

(** ** The schedule of a run *)

(** The call [sat] makes for a border extent: the events of
    [if (border == 0) ... else if (border > 0) ...]. *)
Definition sat_calls (width height runtimes : Z) (w : weights) (border : Z)
    (btype : BorderType) : list event :=
  if border =? 0 then [Ev_sat_gpu_false width height runtimes w]
  else if border >? 0 then [Ev_sat_gpu_true width height runtimes w border btype]
  else [].

(** The events of [main] from the call of the reference engine to the call
    of the checker, for the locals [l]. *)
Definition engine_calls (l : main_locals) : list event :=
  Ev_ref_sat_cpu (l_width l) (l_height l) sat_weights (l_a0border l) (l_btype l)
  :: sat_calls (l_width l) (l_height l) (l_runtimes l) sat_weights (l_border l)
               (l_btype l)
  ++ [Ev_check_cpu_reference (int_mul (l_width l) (l_height l))].

(** The events of a complete run of [main], in order, for the locals [l] and
    the error scalars [me] and [mre]. *)
Definition schedule (l : main_locals) (me mre : float) : list event :=
  (if l_runtimes l =? 1
   then [Ev_print_info (l_width l) (l_height l) (l_btype l) (l_border l)
                       (l_a0border l) sat_weights]
   else [])
  ++ engine_calls l
  ++ (if l_runtimes l =? 1 then header_line else [])
  ++ error_line me mre.

Definition is_cout (e : event) : bool :=
  match e with Ev_cout _ => true | _ => false end.

Definition is_print_info (e : event) : bool :=
  match e with Ev_print_info _ _ _ _ _ _ => true | _ => false end.

(** Locals with a negative width, which the modelled engines reject. *)
Definition locals_negative_width : main_locals :=
  {| l_width := -4; l_height := 4; l_runtimes := 1; l_btype := bt_zero;
     l_border := 0; l_cpu_img := []; l_gpu_img := [];
     l_w := [# F32.zero; F32.zero]; l_a0border := 0;
     l_me := F32.zero; l_mre := F32.zero |}.

(** The modelled collaborators behind that setup: the reference engine
    rejects the configuration. *)
Definition rejecting : Collaborators :=
  model_collaborators (setup_with locals_negative_width).

(** ** Accuracy of the accelerated engine

    The agreement of the two engines is stated on the values of the
    samples, as rational numbers; the rounding analysis behind it counts in
    units of 2^-149, the smallest positive number of binary32, in which
    every number of the format is an integer. *)

(** The value of a finite number, [+-m * 2^e]; an infinity or a NaN has
    none. *)
Definition value (x : float) : option Q :=
  match x with
  | S754_zero _ => Some 0%Q
  | S754_finite s m e => Some (inject_Z (cond_Zopp s (Z.pos m)) * 2 ^ e)%Q
  | _ => None
  end.

Definition magnitude (x : float) : Q :=
  match value x with Some v => Qabs v | None => 0%Q end.

(** max |value| over the samples of an image. *)
Definition max_abs (img : image) : Q := fold_right Qmax 0%Q (magnitude <$> img).

(** The machine epsilon of binary32, 2^-24. *)
Definition eps : Q := (2 ^ (-24))%Q.

(** [K * W * H * eps * max|value|]. *)
Definition error_bound (K : Q) (width height : Z) (img : image) : Q :=
  (K * inject_Z width * inject_Z height * eps * max_abs img)%Q.

(** [x] is a number, and at most [b]. *)
Definition at_most (x : float) (b : Q) : Prop :=
  match value x with Some v => (v <= b)%Q | None => False end.

(** A finite value of the C++ type [float]: a zero, or a mantissa and an
    exponent within the bounds of binary32. *)
Definition binary32 (x : float) : bool :=
  F32.is_finite x && valid_binary 24 128 x.

(** The accuracy claim with the constant [K]: on every image of finite
    samples with both dimensions in [1, 4096] and no border, whatever the
    checker reports as the largest absolute difference between the image
    [sat] leaves and the one [ref_sat_cpu] leaves is at most
    [K * W * H * eps * max|value|]. *)
Definition accuracy_claim (K : Q) : Prop :=
  ∀ setup (img : image) (width height runtimes : Z) (btype : BorderType)
    (me0 mre0 : float) (cpu gpu : image) (me mre : float),
    1 ≤ width ≤ 4096 → 1 ≤ height ≤ 4096 →
    Z.of_nat (length img) = width * height →
    Forall (λ x, binary32 x = true) img →
    Model.ref_sat_cpu img width height sat_weights 0 btype = Returned cpu →
    outcome (sat (C := model_collaborators setup) img width height runtimes
                 sat_weights 0 btype) = Returned gpu →
    Model.check_cpu_reference cpu gpu (int_mul width height) me0 mre0
    = Returned (me, mre) →
    at_most me (error_bound K width height img).

(** A 64 x 1 image: -2^127, then zeros to the end of the first tile, then
    2^127 twice at the start of the second tile.  Every running sum of the
    line is finite (-2^127, then 0, then 2^127), but the second tile alone
    sums to 2^128. *)
Definition overflow_line : list Z :=
  [- 2 ^ 127] ++ replicate 31 0 ++ [2 ^ 127; 2 ^ 127] ++ replicate 30 0.

Definition overflow_image : image := F32.of_Z <$> overflow_line.

(** A 40 x 1 image that spans two tiles: 2^24, then ones.  The sequential
    sum stays at 2^24 (adding 1 rounds back to it); the tiled one adds the
    sum of the second tile at once. *)
Definition rounding_line : image := F32.of_Z <$> (2 ^ 24 :: replicate 39 1).

(** *** Units of 2^-149 *)

(** The value of a number in units of 2^-149. *)
Definition units (x : float) : Z :=
  match x with
  | S754_finite s m e => cond_Zopp s (Z.pos m * 2 ^ (e + 149))
  | _ => 0
  end.

(** A number of the format: a zero, or a mantissa and an exponent within
    the bounds of binary32. *)
Definition in_format (x : float) : Prop :=
  match x with
  | S754_zero _ => True
  | S754_finite _ m e => bounded 24 128 m e = true
  | _ => False
  end.

Definition unit_scale : Q := inject_Z (2 ^ 149).

(** The largest magnitude of an image in units of 2^-149. *)
Definition max_units (img : image) : Z :=
  fold_right Z.max 0 ((λ x, Z.abs (units x)) <$> img).

(** What [k] shifts to the right leave of the mantissa [m]: the quotient by
    [2^k], and where the remainder lies with respect to half of [2^k]. *)
Definition shr_inv (m k : Z) (mrs : shr_record) : Prop :=
  0 ≤ shr_m mrs
  ∧ ∃ rem, m = shr_m mrs * 2 ^ k + rem
     ∧ match shr_r mrs, shr_s mrs with
       | false, false => rem = 0
       | false, true => 0 < 2 * rem < 2 ^ k
       | true, false => 2 * rem = 2 ^ k
       | true, true => 2 ^ k < 2 * rem < 2 * 2 ^ k
       end.

(** An operation that rounds the sum of its arguments: where the sum
    cannot overflow, the result is a number of the format within a
    relative error of 2^-24 of it. *)
Definition rounds_sum (op : float → float → float) : Prop :=
  ∀ x y, in_format x → in_format y → Z.abs (units x + units y) ≤ 2 ^ 276 →
    in_format (op x y)
    ∧ 2 ^ 24 * Z.abs (units (op x y) - (units x + units y))
      ≤ Z.abs (units x + units y).

(** *** What a computed sample stands for *)

Abbreviation w_sat := (vec_to_list sat_weights).

(** A pair [(t, B)]: the sum [t] that a computed sample would be without
    rounding, and the sum [B] of the magnitudes of the samples added up in
    it, both in units of 2^-149. *)
Definition padd (a b : Z * Z) : Z * Z := (a.1 + b.1, a.2 + b.2).

(** A sample of the input stands for itself. *)
Definition exact_of (x : float) : Z * Z := (units x, Z.abs (units x)).

(** Running sums from [p]. *)
Fixpoint pscan (p : Z * Z) (l : list (Z * Z)) : list (Z * Z) :=
  match l with
  | [] => []
  | x :: l' => padd p x :: pscan (padd p x) l'
  end.

Fixpoint psum (l : list (Z * Z)) : Z * Z :=
  match l with [] => (0, 0) | x :: l' => padd x (psum l') end.

(** The magnitudes of a line, added up. *)
Fixpoint bsum (l : list (Z * Z)) : Z :=
  match l with [] => 0 | x :: l' => Z.abs x.2 + bsum l' end.

(** [a] is a number of the format within [c * 2^-24 * B] of [t]: it went
    through the equivalent of [c] roundings of sums of magnitude at most
    [B]. *)
Definition approx (c : Z) (a : float) (tb : Z * Z) : Prop :=
  in_format a ∧ Z.abs tb.1 ≤ tb.2 ∧ 2 ^ 24 * Z.abs (units a - tb.1) ≤ c * tb.2.

(** [n] consecutive segments of [T] elements of a list: the rows of an
    image of width [T], the tiles of a line. *)
Definition segments {A : Type} (T n : nat) (l : list A) : list (list A) :=
  (λ k, take T (drop (k * T) l)) <$> seq 0 n.

(** The columns of a list of rows. *)
Definition columns {A : Type} (d : A) (width : nat) (rows : list (list A))
    : list (list A) :=
  (λ c, (λ row : list A, default d (row !! c)) <$> rows) <$> seq 0 width.

(** What the samples of the summed-area table stand for: running sums
    along every row, then along every column. *)
Definition psat (width height : nat) (sh : list (Z * Z)) : list (Z * Z) :=
  let rows := pscan (0, 0) <$> segments width height sh in
  let cols := pscan (0, 0) <$> columns (0, 0) width rows in
  concat (columns (0, 0) height cols).

(** A line pass that computes the running sums of a line within
    [2 * (TILE + length)] more roundings than its samples went through,
    where the magnitudes of the line cannot overflow. *)
Definition line_pass_ok (pass : list float → list float) : Prop :=
  ∀ (c0 : Z) (line : list float) (tbs : list (Z * Z)),
    Forall2 (approx c0) line tbs →
    0 ≤ c0 → c0 + 64 + 2 * Z.of_nat (length line) ≤ 2 ^ 24 →
    bsum tbs ≤ 2 ^ 275 →
    Forall2 (approx (c0 + 64 + 2 * Z.of_nat (length line)))
            (pass line) (pscan (0, 0) tbs).

(** * Properties of the driver *)

Section DriverFacts.

Context {C : Collaborators}.

Lemma set_sat_weights_eq (w : vec float 2) : set_sat_weights w = sat_weights.
Proof. inv_vec w. reflexivity. Qed.

Lemma sat_trace_weights h_img width height runtimes w border btype :
  Forall (λ e, ∀ w', event_weights e = Some w' → w' = w)
         (trace (sat h_img width height runtimes w border btype)).
Proof.
  unfold sat. destruct (border =? 0); [|destruct (border >? 0)]; cbn.
  - repeat constructor. cbn. congruence.
  - repeat constructor. cbn. congruence.
  - constructor.
Qed.

Lemma sat_trace_console h_img width height runtimes w border btype :
  console (trace (sat h_img width height runtimes w border btype)) = [].
Proof.
  unfold sat. destruct (border =? 0); [|destruct (border >? 0)]; reflexivity.
Qed.

Lemma bind_returned {A B : Type} (m : M A) (k : A → M B) (a : A) :
  outcome m = Returned a →
  m ≫= k = MkM (trace m ++ trace (k a)) (outcome (k a)).
Proof. intros E. unfold mbind, M_bind. rewrite E. reflexivity. Qed.

(** The events of a run whose collaborators return. *)
Lemma main_returns argc argv l cpu gpu me mre :
  run_returns argc argv l cpu gpu me mre →
  let w := sat_weights in
  main argc argv =
  MkM ((if l_runtimes l =? 1
        then [Ev_print_info (l_width l) (l_height l) (l_btype l) (l_border l)
                            (l_a0border l) w]
        else [])
       ++ Ev_ref_sat_cpu (l_width l) (l_height l) w (l_a0border l) (l_btype l)
       :: trace (sat (l_gpu_img l) (l_width l) (l_height l) (l_runtimes l) w
                     (l_border l) (l_btype l))
       ++ Ev_check_cpu_reference (int_mul (l_width l) (l_height l))
       :: (if l_runtimes l =? 1 then header_line else [])
       ++ error_line me mre)
      (Returned 0).
Proof.
  unfold run_returns. rewrite set_sat_weights_eq.
  intros (Hsetup & Hinfo & Href & Hsat & Hcheck). cbn zeta.
  unfold main.
  rewrite (bind_returned _ _ l) by exact Hsetup.
  cbn zeta. rewrite !set_sat_weights_eq.
  rewrite (bind_returned _ _ tt)
    by (destruct (Z.eqb_spec (l_runtimes l) 1); [now apply Hinfo | reflexivity]).
  rewrite (bind_returned (call _ _) _ cpu) by exact Href.
  rewrite (bind_returned (sat _ _ _ _ _ _ _) _ gpu) by exact Hsat.
  rewrite (bind_returned (call _ _) _ (me, mre)) by exact Hcheck.
  destruct (l_runtimes l =? 1); reflexivity.
Qed.

Lemma trace_bind {A B : Type} (m : M A) (k : A → M B) :
  trace (m ≫= k) =
  trace m ++ match outcome m with Returned a => trace (k a) | Aborted _ => [] end.
Proof.
  unfold mbind, M_bind. destruct (outcome m); cbn; [reflexivity|].
  now rewrite app_nil_r.
Qed.

Lemma outcome_bind {A B : Type} (m : M A) (k : A → M B) :
  outcome (m ≫= k) =
  match outcome m with Returned a => outcome (k a) | Aborted why => Aborted why end.
Proof. unfold mbind, M_bind. destruct (outcome m); reflexivity. Qed.

(** ** The border dispatch of [sat] *)

(** C10: a call of [sat] with a strictly negative border extent takes
    neither [sat_gpu] branch: it records no call, and returns with the
    image buffer as it was on entry. *)
Theorem sat_negative_border_no_effect h_img width height runtimes w border btype :
  border < 0 →
  trace (sat h_img width height runtimes w border btype) = []
  ∧ outcome (sat h_img width height runtimes w border btype) = Returned h_img.
Proof.
  intros Hneg. unfold sat.
  destruct (Z.eqb_spec border 0) as [E|_]; [lia|].
  destruct (Z.gtb_spec border 0) as [E|_]; [lia|].
  split; reflexivity.
Qed.

(** C9: with border extent 0 the border type does not reach the
    accelerated engine: two calls of [sat] that differ only in the border
    type make the same call of [sat_gpu<false>], which has no border-type
    argument, and leave the same buffer. *)
Theorem sat_border_zero_ignores_btype h_img width height runtimes w b1 b2 :
  sat h_img width height runtimes w 0 b1 = sat h_img width height runtimes w 0 b2
  ∧ sat h_img width height runtimes w 0 b1
    = call (Ev_sat_gpu_false width height runtimes w)
           (sat_gpu_false h_img width height runtimes w).
Proof. unfold sat. rewrite Z.eqb_refl. split; reflexivity. Qed.

(** ** The weights *)

(** C4: the filter order is 1, and whatever [initial_setup] left in the
    weight vector, every call that receives it (print_info, ref_sat_cpu
    and, through [sat], sat_gpu) receives w[0] = 1 and w[1] = -1; on a run
    whose collaborators return, the reference engine is called with them,
    and so is the accelerated engine when the border extent is not
    negative. *)
Theorem main_passes_sat_weights argc argv :
  ORDER = 1%nat
  ∧ (∀ w0 : weights,
       set_sat_weights w0 !!! 0%fin = F32.one
       ∧ set_sat_weights w0 !!! 1%fin = F32.minus_one)
  ∧ Forall (λ e, ∀ w, event_weights e = Some w →
                      w !!! 0%fin = F32.one ∧ w !!! 1%fin = F32.minus_one)
           (trace (main argc argv))
  ∧ (∀ l cpu gpu me mre,
       run_returns argc argv l cpu gpu me mre →
       Ev_ref_sat_cpu (l_width l) (l_height l) sat_weights (l_a0border l)
                      (l_btype l) ∈ trace (main argc argv)
       ∧ (0 ≤ l_border l →
          ∃ e, e ∈ trace (main argc argv) ∧ is_dispatch e = true
               ∧ event_weights e = Some sat_weights)).
Proof.
  split; [reflexivity|]. split.
  { intros w0. rewrite set_sat_weights_eq. split; reflexivity. }
  split.
  - assert (Hw : ∀ w : weights, w = sat_weights →
              w !!! 0%fin = F32.one ∧ w !!! 1%fin = F32.minus_one)
      by (intros w ->; split; reflexivity).
    unfold main. rewrite trace_bind. cbn [lift trace outcome app].
    destruct (initial_setup argc argv) as [l|]; [|constructor].
    cbn zeta. rewrite !set_sat_weights_eq.
    rewrite trace_bind. apply Forall_app. split.
    { destruct (l_runtimes l =? 1); [|constructor].
      apply Forall_singleton. cbn. intros w [= <-]. now apply Hw. }
    destruct (outcome (if l_runtimes l =? 1 then _ else _)); [|constructor].
    rewrite trace_bind. apply Forall_app. split.
    { apply Forall_singleton. cbn. intros w [= <-]. now apply Hw. }
    cbn [call outcome].
    destruct (ref_sat_cpu _ _ _ _ _ _) as [cpu|]; [|constructor].
    rewrite trace_bind. apply Forall_app. split.
    { eapply Forall_impl; [apply sat_trace_weights|].
      cbn. intros e He w Hew. apply Hw. now apply He. }
    destruct (outcome (sat _ _ _ _ _ _ _)) as [gpu|]; [|constructor].
    rewrite trace_bind. apply Forall_app. split.
    { apply Forall_singleton. cbn. discriminate. }
    cbn [call outcome].
    destruct (check_cpu_reference _ _ _ _ _) as [[me mre]|]; [|constructor].
    destruct (l_runtimes l =? 1); cbn;
      repeat (apply Forall_cons; split; [cbn; discriminate|]); constructor.
  - intros l cpu gpu me mre Hrun.
    rewrite (main_returns _ _ _ _ _ _ _ Hrun). cbn [trace]. split.
    + apply elem_of_app. right. apply elem_of_cons. now left.
    + intros Hb. unfold sat.
      destruct (Z.eqb_spec (l_border l) 0) as [E|E].
      * exists (Ev_sat_gpu_false (l_width l) (l_height l) (l_runtimes l)
                  sat_weights).
        split; [|split; reflexivity].
        apply elem_of_app. right. apply elem_of_cons. right.
        cbn [call trace app]. apply elem_of_cons. now left.
      * destruct (Z.gtb_spec (l_border l) 0) as [E'|E']; [|lia].
        exists (Ev_sat_gpu_true (l_width l) (l_height l) (l_runtimes l)
                  sat_weights (l_border l) (l_btype l)).
        split; [|split; reflexivity].
        apply elem_of_app. right. apply elem_of_cons. right.
        cbn [call trace app]. apply elem_of_cons. now left.
Qed.

(** ** Exit status and console output *)

Lemma console_main argc argv l cpu gpu me mre :
  run_returns argc argv l cpu gpu me mre →
  console (trace (main argc argv)) =
  (if l_runtimes l =? 1
   then Ev_print_info (l_width l) (l_height l) (l_btype l) (l_border l)
                      (l_a0border l) sat_weights :: header_line
   else [])
  ++ error_line me mre.
Proof.
  intros Hrun. rewrite (main_returns _ _ _ _ _ _ _ Hrun). cbn [trace].
  pose proof (sat_trace_console (l_gpu_img l) (l_width l) (l_height l)
                (l_runtimes l) sat_weights (l_border l) (l_btype l)) as Hsat.
  unfold console in *.
  destruct (l_runtimes l =? 1); cbn [app List.filter is_console];
    rewrite List.filter_app, Hsat; reflexivity.
Qed.

(** C5: the exit status of the driver is 0 whatever the error
    magnitudes: [main] never returns another status, and it returns 0 on
    every run whose collaborators return, for every pair of error scalars
    the checker writes. *)
Theorem main_exit_status_zero argc argv :
  (∀ status, outcome (main argc argv) = Returned status → status = 0)
  ∧ (∀ l cpu gpu me mre,
       run_returns argc argv l cpu gpu me mre →
       outcome (main argc argv) = Returned 0).
Proof.
  split.
  - intros status. unfold main. rewrite outcome_bind. cbn [lift outcome].
    destruct (initial_setup argc argv) as [l|]; [|discriminate]. cbn zeta.
    rewrite outcome_bind.
    destruct (outcome (if l_runtimes l =? 1 then _ else _)); [|discriminate].
    rewrite outcome_bind. cbn [call outcome].
    destruct (ref_sat_cpu _ _ _ _ _ _) as [cpu|]; [|discriminate].
    rewrite outcome_bind.
    destruct (outcome (sat _ _ _ _ _ _ _)) as [gpu|]; [|discriminate].
    rewrite outcome_bind. cbn [call outcome].
    destruct (check_cpu_reference _ _ _ _ _) as [[me mre]|]; [|discriminate].
    destruct (l_runtimes l =? 1); cbn; congruence.
  - intros l cpu gpu me mre Hrun.
    now rewrite (main_returns _ _ _ _ _ _ _ Hrun).
Qed.

(** C8: on a run whose collaborators return, the console shows, when the
    repetition count is 1, print_info's configuration report, then the
    header, then the two error scalars in scientific notation; for any
    other repetition count it shows the line of the two error scalars
    only. *)
Theorem main_console_output argc argv l cpu gpu me mre :
  run_returns argc argv l cpu gpu me mre →
  console (trace (main argc argv)) =
  if l_runtimes l =? 1
  then Ev_print_info (l_width l) (l_height l) (l_btype l) (l_border l)
                     (l_a0border l) sat_weights
       :: header_line ++ error_line me mre
  else error_line me mre.
Proof.
  intros Hrun. rewrite (console_main _ _ _ _ _ _ _ Hrun).
  destruct (l_runtimes l =? 1); reflexivity.
Qed.

(** ** Out-of-range border extent *)

(** A negative border extent is not rejected.  On a run where
    [initial_setup] yields one and the other collaborators return, no
    parallel filtering work is dispatched and no error is signalled: the
    checker receives the unfiltered image, the error scalars are printed
    and the exit status is 0. *)
Lemma negative_border_is_ignored argc argv l cpu me mre :
  initial_setup argc argv = Returned l →
  l_border l < 0 →
  (l_runtimes l = 1 →
   print_info (l_width l) (l_height l) (l_btype l) (l_border l)
              (l_a0border l) sat_weights = Returned tt) →
  ref_sat_cpu (l_cpu_img l) (l_width l) (l_height l) sat_weights
              (l_a0border l) (l_btype l) = Returned cpu →
  check_cpu_reference cpu (l_gpu_img l) (int_mul (l_width l) (l_height l))
                      (l_me l) (l_mre l) = Returned (me, mre) →
  Forall (λ e, is_dispatch e = false) (trace (main argc argv))
  ∧ console (trace (main argc argv)) =
    (if l_runtimes l =? 1
     then Ev_print_info (l_width l) (l_height l) (l_btype l) (l_border l)
                        (l_a0border l) sat_weights :: header_line
     else [])
    ++ error_line me mre
  ∧ outcome (main argc argv) = Returned 0.
Proof.
  intros Hsetup Hneg Hinfo Href Hcheck.
  assert (Hsat : sat (l_gpu_img l) (l_width l) (l_height l) (l_runtimes l)
                   sat_weights (l_border l) (l_btype l)
                 = MkM [] (Returned (l_gpu_img l))).
  { unfold sat.
    destruct (Z.eqb_spec (l_border l) 0) as [E|_]; [lia|].
    destruct (Z.gtb_spec (l_border l) 0) as [E|_]; [lia|]. reflexivity. }
  assert (Hrun : run_returns argc argv l cpu (l_gpu_img l) me mre).
  { unfold run_returns. rewrite set_sat_weights_eq, Hsat. auto. }
  split; [|split].
  - rewrite (main_returns _ _ _ _ _ _ _ Hrun). cbn [trace]. rewrite Hsat.
    destruct (l_runtimes l =? 1); cbn;
      repeat (apply Forall_cons; split; [reflexivity|]); constructor.
  - apply (console_main _ _ _ _ _ _ _ Hrun).
  - now rewrite (main_returns _ _ _ _ _ _ _ Hrun).
Qed.

End DriverFacts.

(** ** The driver on the modelled collaborators *)

Lemma model_run_4x4 setup argc argv l :
  setup argc argv = Returned l →
  l_width l = 4 → l_height l = 4 → l_border l = 0 → l_a0border l = 0 →
  l_cpu_img l = ones 16 → l_gpu_img l = ones 16 →
  run_returns (C := model_collaborators setup) argc argv l
    sat_table_4x4 sat_table_4x4 F32.zero F32.zero.
Proof.
  destruct l as [width height runtimes btype border cpu gpu w a0 me mre].
  cbn. intros Hsetup -> -> -> -> -> ->.
  unfold run_returns. rewrite set_sat_weights_eq. cbn.
  repeat split; [exact Hsetup | reflexivity..].
Qed.

Lemma sat_negative_border_no_effect_witness :
  -1 < 0
  ∧ trace (sat (C := fixture 1 (-1) bt_clamp) (ones 16) 4 4 1 sat_weights (-1)
               bt_clamp) = []
  ∧ outcome (sat (C := fixture 1 (-1) bt_clamp) (ones 16) 4 4 1 sat_weights (-1)
                 bt_clamp) = Returned (ones 16).
Proof.
  split; [lia|]. apply sat_negative_border_no_effect. lia.
Defined.

(** C3 (as stated, refuted): [sat] called with border extent -1 does not
    signal a configuration error; it returns. *)
Lemma negative_border_not_rejected :
  ¬ ∃ why, outcome (sat (C := fixture 1 (-1) bt_zero) (ones 16) 4 4 1
                        sat_weights (-1) bt_zero) = Aborted why.
Proof. intros [why Hwhy]. cbn in Hwhy. discriminate. Qed.

Lemma main_passes_sat_weights_witness :
  run_returns (C := fixture 1000 0 bt_zero) 6 [] (locals_4x4 1000 0 bt_zero)
    sat_table_4x4 sat_table_4x4 F32.zero F32.zero
  ∧ Ev_ref_sat_cpu 4 4 sat_weights 0 bt_zero
    ∈ trace (main (C := fixture 1000 0 bt_zero) 6 [])
  ∧ (0 ≤ 0 →
     ∃ e, e ∈ trace (main (C := fixture 1000 0 bt_zero) 6 [])
          ∧ is_dispatch e = true ∧ event_weights e = Some sat_weights).
Proof.
  assert (Hrun : run_returns (C := fixture 1000 0 bt_zero) 6 []
                   (locals_4x4 1000 0 bt_zero) sat_table_4x4 sat_table_4x4
                   F32.zero F32.zero)
    by (unfold run_returns; repeat split; reflexivity).
  split; [exact Hrun|].
  exact (proj2 (proj2 (proj2
           (main_passes_sat_weights (C := fixture 1000 0 bt_zero) 6 [])))
           _ _ _ _ _ Hrun).
Defined.

Lemma main_exit_status_zero_witness :
  run_returns (C := fixture 7 (-1) bt_zero) 1 [] (locals_4x4 7 (-1) bt_zero)
    sat_table_4x4 (ones 16) (F32.of_Z 15) (F32.div (F32.of_Z 15) (F32.of_Z 16))
  ∧ outcome (main (C := fixture 7 (-1) bt_zero) 1 []) = Returned 0.
Proof.
  assert (Hrun : run_returns (C := fixture 7 (-1) bt_zero) 1 []
                   (locals_4x4 7 (-1) bt_zero) sat_table_4x4 (ones 16)
                   (F32.of_Z 15) (F32.div (F32.of_Z 15) (F32.of_Z 16)))
    by (unfold run_returns; repeat split; reflexivity).
  split; [exact Hrun|].
  exact (proj2 (main_exit_status_zero (C := fixture 7 (-1) bt_zero) 1 [])
           _ _ _ _ _ Hrun).
Defined.

Lemma main_console_output_witness :
  run_returns (C := fixture 1000 0 bt_reflect) 6 []
    (locals_4x4 1000 0 bt_reflect) sat_table_4x4 sat_table_4x4 F32.zero F32.zero
  ∧ console (trace (main (C := fixture 1000 0 bt_reflect) 6 []))
    = error_line F32.zero F32.zero.
Proof.
  assert (Hrun : run_returns (C := fixture 1000 0 bt_reflect) 6 []
                   (locals_4x4 1000 0 bt_reflect) sat_table_4x4 sat_table_4x4
                   F32.zero F32.zero)
    by (unfold run_returns; repeat split; reflexivity).
  split; [exact Hrun|].
  exact (main_console_output (C := fixture 1000 0 bt_reflect) 6 [] _ _ _ _ _ Hrun).
Defined.

(** C2: a run of the driver on a 4 x 4 image of ones with border extent 0
    (and no border for the reference either): the accelerated engine leaves
    (r+1) * (c+1) at every position (r, c), the two error scalars printed
    are exactly 0, and the exit status is 0. *)
Theorem sat_of_4x4_ones setup argc argv l :
  setup argc argv = Returned l →
  l_width l = 4 → l_height l = 4 → l_border l = 0 → l_a0border l = 0 →
  l_cpu_img l = ones 16 → l_gpu_img l = ones 16 →
  let C := model_collaborators setup in
  (∃ gpu,
     outcome (sat (l_gpu_img l) (l_width l) (l_height l) (l_runtimes l)
                  (set_sat_weights (l_w l)) (l_border l) (l_btype l))
     = Returned gpu
     ∧ ∀ r c, (r < 4)%nat → (c < 4)%nat →
              gpu !! (r * 4 + c)%nat = Some (ones_sat r c))
  ∧ console (trace (main argc argv)) =
    (if l_runtimes l =? 1
     then Ev_print_info 4 4 (l_btype l) 0 0 sat_weights :: header_line
     else [])
    ++ error_line F32.zero F32.zero
  ∧ outcome (main argc argv) = Returned 0.
Proof.
  intros Hsetup Hw Hh Hb Ha Hcpu Hgpu C. subst C.
  pose proof (model_run_4x4 setup argc argv l Hsetup Hw Hh Hb Ha Hcpu Hgpu)
    as Hrun.
  split; [|split].
  - exists sat_table_4x4. split.
    + apply Hrun.
    + intros r c Hr Hc.
      do 4 (destruct r as [|r]; [do 4 (destruct c as [|c]; [reflexivity|]); lia|]).
      lia.
  - rewrite (console_main _ _ _ _ _ _ _ Hrun), Hw, Hh, Hb, Ha. reflexivity.
  - now rewrite (main_returns _ _ _ _ _ _ _ Hrun).
Qed.

Lemma sat_of_4x4_ones_witness :
  (∃ gpu,
     outcome (sat (C := fixture 1 0 bt_zero) (ones 16) 4 4 1
                  (set_sat_weights [# F32.zero; F32.zero]) 0 bt_zero)
     = Returned gpu
     ∧ ∀ r c, (r < 4)%nat → (c < 4)%nat →
              gpu !! (r * 4 + c)%nat = Some (ones_sat r c))
  ∧ console (trace (main (C := fixture 1 0 bt_zero) 1 [])) =
    (Ev_print_info 4 4 bt_zero 0 0 sat_weights :: header_line)
    ++ error_line F32.zero F32.zero
  ∧ outcome (main (C := fixture 1 0 bt_zero) 1 []) = Returned 0.
Proof.
  apply (sat_of_4x4_ones (setup_with (locals_4x4 1 0 bt_zero)) 1 []
           (locals_4x4 1 0 bt_zero)); reflexivity.
Defined.

(** * Properties of the models *)

(** ** Border policy *)

Lemma mod_minus_one (p : Z) : 0 < p → (-1) mod p = p - 1.
Proof.
  intros Hp. symmetry. apply (Z.mod_unique (-1) p (-1) (p - 1)); lia.
Qed.

Lemma pixel_lookup (line : list float) (i : nat) (p : float) :
  line !! i = Some p → Model.pixel line (Z.of_nat i) = p.
Proof.
  intros Hp. unfold Model.pixel.
  destruct (Z.ltb_spec (Z.of_nat i) 0); [lia|].
  now rewrite Nat2Z.id, Hp.
Qed.

(** An in-range offset reads the stored sample, for every border type. *)
Lemma border_sample_in_range bt (line : list float) (i : nat) (p : float) :
  line !! i = Some p → Model.border_sample bt line (Z.of_nat i) = p.
Proof.
  intros Hp. pose proof (lookup_lt_Some _ _ _ Hp) as Hlt.
  unfold Model.border_sample, Model.border_coord.
  destruct (Z.leb_spec 0 (Z.of_nat i)); [|lia].
  destruct (Z.ltb_spec (Z.of_nat i) (Z.of_nat (length line))); [|lia].
  cbn. now apply pixel_lookup.
Qed.

(** C7: under every border type the sample at offset 0 is the stored
    pixel; at offset -1 it is 0 under zero, pixel[0] under clamp, pixel[W-1]
    under repeat and pixel[1] under reflect. *)
Theorem border_policy_offsets (line : list float) :
  (∀ bt p, line !! 0%nat = Some p → Model.border_sample bt line 0 = p)
  ∧ Model.border_sample bt_zero line (-1) = F32.zero
  ∧ (∀ p, line !! 0%nat = Some p → Model.border_sample bt_clamp line (-1) = p)
  ∧ (∀ p, line !! (length line - 1)%nat = Some p →
          Model.border_sample bt_repeat line (-1) = p)
  ∧ (∀ p, line !! 1%nat = Some p → Model.border_sample bt_reflect line (-1) = p).
Proof.
  split; [|split; [|split; [|split]]].
  - intros bt p Hp. now apply (border_sample_in_range bt line 0).
  - reflexivity.
  - intros p Hp. pose proof (lookup_lt_Some _ _ _ Hp) as Hlt.
    unfold Model.border_sample, Model.border_coord. cbn [Z.leb Z.compare andb].
    replace (Z.max 0 (Z.min (Z.of_nat (length line) - 1) (-1))) with (Z.of_nat 0)
      by lia.
    now apply pixel_lookup.
  - intros p Hp. pose proof (lookup_lt_Some _ _ _ Hp) as Hlt.
    unfold Model.border_sample, Model.border_coord. cbn [Z.leb Z.compare andb].
    rewrite mod_minus_one by lia.
    replace (Z.of_nat (length line) - 1) with (Z.of_nat (length line - 1)) by lia.
    now apply pixel_lookup.
  - intros p Hp. pose proof (lookup_lt_Some _ _ _ Hp) as Hlt.
    unfold Model.border_sample, Model.border_coord. cbn [Z.leb Z.compare andb].
    set (n := Z.of_nat (length line)). assert (2 ≤ n) by lia.
    destruct (Z.leb_spec (2 * (n - 1)) 0); [lia|].
    rewrite mod_minus_one by lia.
    destruct (Z.ltb_spec (2 * (n - 1) - 1) n).
    + replace (2 * (n - 1) - 1) with (Z.of_nat 1) by lia.
      now apply pixel_lookup.
    + replace (2 * (n - 1) - (2 * (n - 1) - 1)) with (Z.of_nat 1) by lia.
      now apply pixel_lookup.
Qed.

Lemma border_policy_offsets_witness :
  (line_10_40 !! 0%nat = Some (F32.of_Z 10)
   ∧ line_10_40 !! (length line_10_40 - 1)%nat = Some (F32.of_Z 40)
   ∧ line_10_40 !! 1%nat = Some (F32.of_Z 20))
  ∧ Model.border_sample bt_reflect line_10_40 0 = F32.of_Z 10
  ∧ Model.border_sample bt_zero line_10_40 (-1) = F32.zero
  ∧ Model.border_sample bt_clamp line_10_40 (-1) = F32.of_Z 10
  ∧ Model.border_sample bt_repeat line_10_40 (-1) = F32.of_Z 40
  ∧ Model.border_sample bt_reflect line_10_40 (-1) = F32.of_Z 20.
Proof.
  split; [repeat split; reflexivity|].
  split; [apply (proj1 (border_policy_offsets line_10_40)); reflexivity|].
  split; [apply (proj1 (proj2 (border_policy_offsets line_10_40)))|].
  split;
    [apply (proj1 (proj2 (proj2 (border_policy_offsets line_10_40))));
     reflexivity|].
  split;
    [apply (proj1 (proj2 (proj2 (proj2 (border_policy_offsets line_10_40)))));
     reflexivity|].
  apply (proj2 (proj2 (proj2 (proj2 (border_policy_offsets line_10_40)))));
    reflexivity.
Defined.

(** ** Order and rounding of binary32 *)

Ltac cmp_cases :=
  repeat match goal with
    | H : context [Z.compare ?a ?b] |- _ => destruct (Z.compare_spec a b)
    | |- context [Z.compare ?a ?b] => destruct (Z.compare_spec a b)
    | H : context [Pos.compare_cont Eq ?a ?b] |- _ =>
        change (Pos.compare_cont Eq a b) with (Pos.compare a b) in *;
        destruct (Pos.compare_spec a b)
    | |- context [Pos.compare_cont Eq ?a ?b] =>
        change (Pos.compare_cont Eq a b) with (Pos.compare a b) in *;
        destruct (Pos.compare_spec a b)
    end;
  cbn in *; try discriminate; try reflexivity; try lia.

Lemma ltb_irrefl (x : float) : F32.ltb x x = false.
Proof.
  unfold F32.ltb, SFltb, SFcompare.
  destruct x as [[]|[]| |[] m e]; try reflexivity; cmp_cases.
Qed.

Lemma ltb_trans (x y z : float) :
  F32.ltb x y = true → F32.ltb y z = true → F32.ltb x z = true.
Proof.
  unfold F32.ltb, SFltb, SFcompare.
  destruct x as [[]|[]| |[] m1 e1], y as [[]|[]| |[] m2 e2],
           z as [[]|[]| |[] m3 e3];
    try discriminate; try reflexivity; intros H1 H2; cmp_cases.
Qed.

Lemma compare_antisym (x y : float) :
  SFcompare y x = CompOpp <$> SFcompare x y.
Proof.
  unfold SFcompare.
  destruct x as [[]|[]| |[] m1 e1], y as [[]|[]| |[] m2 e2];
    try reflexivity; cbn; f_equal; cmp_cases.
Qed.

Lemma signed_not_nan s (x : float) : signed s x → F32.is_nan x = false.
Proof. now destruct x. Qed.

(** On numbers the order is total. *)
Lemma leb_of_not_ltb (x y : float) :
  F32.is_nan x = false → F32.is_nan y = false →
  F32.ltb x y = false → F32.leb y x = true.
Proof.
  unfold F32.ltb, F32.leb, SFltb, SFleb. rewrite (compare_antisym x y).
  destruct x as [sx|sx| |sx mx ex], y as [sy|sy| |sy my ey];
    try discriminate; intros _ _;
    destruct (SFcompare _ _) as [[]|] eqn:E; cbn; try reflexivity;
    try discriminate.
Qed.

Lemma signed_le_zero (x : float) :
  signed false x → F32.ltb F32.zero x = false → x = F32.zero.
Proof. destruct x as [s|s| |s m e]; cbn; intros Hs; subst; try done. Qed.

Lemma abs_signed (x : float) : F32.is_nan x = false → signed false (F32.abs x).
Proof. now destruct x. Qed.

Lemma shr_1_nonneg r : 0 ≤ shr_m r → 0 ≤ shr_m (shr_1 r).
Proof. destruct r as [[|[p|p|]|p] r s]; cbn; lia. Qed.

Lemma iter_shr_1_nonneg p :
  ∀ r, 0 ≤ shr_m r → 0 ≤ shr_m (SpecFloat.iter_pos shr_1 p r).
Proof.
  induction p as [p IH|p IH|]; intros r Hr; cbn.
  - apply IH, IH, shr_1_nonneg, Hr.
  - apply IH, IH, Hr.
  - apply shr_1_nonneg, Hr.
Qed.

Lemma shr_fexp_nonneg m e l :
  0 ≤ m → 0 ≤ shr_m (shr_fexp F32.prec F32.emax m e l).1.
Proof.
  intros Hm. unfold shr_fexp, shr.
  assert (0 ≤ shr_m (shr_record_of_loc m l)) by (destruct l as [|[]]; exact Hm).
  destruct (fexp F32.prec F32.emax (Zdigits2 m + e) - e); cbn; [done| |done].
  now apply iter_shr_1_nonneg.
Qed.

Lemma round_nearest_even_nonneg m l : 0 ≤ m → 0 ≤ round_nearest_even m l.
Proof.
  intros Hm. unfold round_nearest_even.
  destruct l as [|[]]; [done| |done|lia]. destruct (Z.even m); lia.
Qed.

(** Rounding a non-negative mantissa gives a number of the requested sign. *)
Lemma binary_round_aux_signed s m e l :
  0 ≤ m → signed s (binary_round_aux F32.prec F32.emax s m e l).
Proof.
  intros Hm. unfold binary_round_aux.
  pose proof (shr_fexp_nonneg m e l Hm) as H1.
  destruct (shr_fexp F32.prec F32.emax m e l) as [mrs' e']. cbn [fst] in H1.
  pose proof (shr_fexp_nonneg _ e' loc_Exact
                (round_nearest_even_nonneg _ (loc_of_shr_record mrs') H1)) as H2.
  destruct (shr_fexp F32.prec F32.emax _ e' loc_Exact) as [mrs'' e''].
  cbn [fst] in H2.
  destruct (shr_m mrs'') as [|q|q]; [reflexivity| |lia].
  destruct (e'' <=? F32.emax - F32.prec); reflexivity.
Qed.

Lemma binary_round_signed s m e :
  signed s (binary_round F32.prec F32.emax s m e).
Proof.
  unfold binary_round. destruct (shl_align _ _ _) as [mz ez].
  now apply binary_round_aux_signed.
Qed.

Lemma binary_normalize_not_nan m e :
  F32.is_nan (binary_normalize F32.prec F32.emax m e false) = false.
Proof.
  destruct m as [|p|p]; cbn; [reflexivity| |];
    eapply signed_not_nan, binary_round_signed.
Qed.

(** The difference of two finite floats is a number (possibly infinite). *)
Lemma sub_not_nan (x y : float) :
  F32.is_finite x = true → F32.is_finite y = true →
  F32.is_nan (F32.sub x y) = false.
Proof.
  destruct x as [[]|[]| |sx mx ex], y as [[]|[]| |sy my ey]; try discriminate;
    intros _ _; try reflexivity.
  unfold F32.sub, SFsub. apply binary_normalize_not_nan.
Qed.

(** A non-negative number divided by a positive finite one is a
    non-negative number. *)
Lemma div_signed (a : float) m e :
  signed false a → signed false (F32.div a (S754_finite false m e)).
Proof.
  unfold F32.div.
  destruct a as [sa|sa| |sa ma ea]; cbn; try (intros ->; reflexivity); [done|].
  intros ->. cbn [xorb].
  unfold SFdiv_core_binary.
  set (m' := match _ - _ - _ with Z0 => _ | Zpos _ => _ | Zneg _ => _ end).
  assert (0 ≤ m') as Hm'.
  { subst m'. destruct (_ - _ - _); [lia| |lia]. apply Z.shiftl_nonneg. lia. }
  pose proof (Z_div_mod m' (Z.pos m) ltac:(lia)) as Hdm.
  destruct (Z.div_eucl m' (Z.pos m)) as [q r].
  apply binary_round_aux_signed. destruct Hdm as [Hdm Hr]. nia.
Qed.

(** ** The accuracy checker *)

Lemma fmax_fold_not_below (xs : list float) :
  ∀ m y, F32.ltb m y = false → F32.ltb (fold_left Model.fmax xs m) y = false.
Proof.
  induction xs as [|a xs IH]; intros m y Hmy; cbn; [exact Hmy|].
  apply IH. unfold Model.fmax. destruct (F32.ltb m a) eqn:Hma; [|exact Hmy].
  destruct (F32.ltb a y) eqn:Hay; [|reflexivity].
  now rewrite (ltb_trans m a y Hma Hay) in Hmy.
Qed.

Lemma fmax_fold_upper (xs : list float) :
  ∀ m x, x ∈ xs → F32.ltb (fold_left Model.fmax xs m) x = false.
Proof.
  induction xs as [|a xs IH]; intros m x Hx; [now apply elem_of_nil in Hx|].
  apply elem_of_cons in Hx as [->|Hx]; cbn; [|now apply IH].
  apply fmax_fold_not_below. unfold Model.fmax.
  destruct (F32.ltb m a) eqn:Hma; [apply ltb_irrefl | exact Hma].
Qed.

Lemma fmax_fold_attained (xs : list float) :
  ∀ m, fold_left Model.fmax xs m ∈ xs ∨ fold_left Model.fmax xs m = m.
Proof.
  induction xs as [|a xs IH]; intros m; cbn; [now right|].
  destruct (IH (Model.fmax m a)) as [Hin|Heq].
  - left. now apply elem_of_cons; right.
  - rewrite Heq. unfold Model.fmax. destruct (F32.ltb m a).
    + left. apply elem_of_cons. now left.
    + now right.
Qed.

Lemma fmax_fold_not_exceeded (xs : list float) :
  not_exceeded (fold_left Model.fmax xs F32.zero) xs.
Proof.
  split; [intros x Hx; now apply fmax_fold_upper | apply fmax_fold_attained].
Qed.

(** On non-negative numbers, the running maximum is the maximum. *)
Lemma not_exceeded_is_max (m : float) (xs : list float) :
  not_exceeded m xs → (∀ x, x ∈ xs → signed false x) → is_max m xs.
Proof.
  intros [Hup Hin] Hsigned.
  assert (Hm : F32.is_nan m = false).
  { destruct Hin as [Hin| ->]; [|reflexivity].
    eapply signed_not_nan, Hsigned, Hin. }
  split.
  - intros x Hx. apply leb_of_not_ltb; [exact Hm| |now apply Hup].
    eapply signed_not_nan, Hsigned, Hx.
  - destruct Hin as [Hin| ->]; [now left|].
    destruct xs as [|x xs]; [now right|]. left.
    assert (Hx : x ∈ x :: xs) by (apply elem_of_cons; now left).
    rewrite <- (signed_le_zero x (Hsigned x Hx) (Hup x Hx)). exact Hx.
Qed.

(** The checker's loop computes the two running maxima independently. *)
Lemma check_fold (ps : list (float * float)) :
  ∀ acc,
    fold_left Model.check_step ps acc =
    (fold_left Model.fmax ((λ p, Model.abs_err p.1 p.2) <$> ps) acc.1,
     fold_left Model.fmax
       ((λ p, Model.rel_err p.1 p.2)
          <$> List.filter (λ p, F32.ltb F32.zero (F32.abs p.1)) ps) acc.2).
Proof.
  induction ps as [|[c g] ps IH]; intros [m r]; [reflexivity|].
  cbn [fold_left]. rewrite IH. unfold Model.check_step.
  cbn [fst snd fmap list_fmap List.filter].
  destruct (F32.ltb F32.zero (F32.abs c)); reflexivity.
Qed.

(** The values the checker folds over are the per-pixel errors. *)
Lemma check_fold_pixel_errors (cpu gpu : image) :
  fold_left Model.check_step (zip cpu gpu) (F32.zero, F32.zero) =
  (fold_left Model.fmax (pixel_abs_errors cpu gpu) F32.zero,
   fold_left Model.fmax (pixel_rel_errors cpu gpu) F32.zero).
Proof. rewrite check_fold. reflexivity. Qed.

Lemma pixel_abs_errors_signed (cpu gpu : image) :
  Forall (λ x, F32.is_finite x = true) cpu →
  Forall (λ x, F32.is_finite x = true) gpu →
  ∀ x, x ∈ pixel_abs_errors cpu gpu → signed false x.
Proof.
  rewrite !Forall_forall. intros Hcpu Hgpu x Hx.
  apply list_elem_of_fmap in Hx as ([c g] & -> & Hp). cbn [fst snd].
  apply abs_signed, sub_not_nan;
    [eapply Hgpu, elem_of_zip_r | eapply Hcpu, elem_of_zip_l]; exact Hp.
Qed.

Lemma pixel_rel_errors_signed (cpu gpu : image) :
  Forall (λ x, F32.is_finite x = true) cpu →
  Forall (λ x, F32.is_finite x = true) gpu →
  ∀ x, x ∈ pixel_rel_errors cpu gpu → signed false x.
Proof.
  rewrite !Forall_forall. intros Hcpu Hgpu x Hx.
  apply list_elem_of_fmap in Hx as ([c g] & -> & Hp). cbn [fst snd].
  apply list_elem_of_In, List.filter_In in Hp as [Hp Hpos].
  apply list_elem_of_In in Hp. cbn [fst] in Hpos.
  assert (Hc : F32.is_finite c = true) by (eapply Hcpu, elem_of_zip_l, Hp).
  assert (Hg : F32.is_finite g = true) by (eapply Hgpu, elem_of_zip_r, Hp).
  pose proof (abs_signed _ (sub_not_nan g c Hg Hc)) as Ha.
  destruct c as [s|s| |s m e]; try discriminate.
  now apply div_signed.
Qed.

(** C6: on two buffers of [ne] pixels the checker returns, first, the
    maximum over all pixels of |gpu - cpu| and, second, the maximum over the
    pixels with |cpu| > 0 of |gpu - cpu| / |cpu| (0 when there is no such
    pixel).  On any data no per-pixel error exceeds the scalar returned,
    which is one of the errors or 0; on finite samples it is their maximum
    in the order of the floats. *)
Theorem check_cpu_reference_maxima (cpu gpu : image) (ne : Z) (me0 mre0 : float) :
  Z.of_nat (length cpu) = ne → Z.of_nat (length gpu) = ne →
  ∃ me mre,
    Model.check_cpu_reference cpu gpu ne me0 mre0 = Returned (me, mre)
    ∧ not_exceeded me (pixel_abs_errors cpu gpu)
    ∧ not_exceeded mre (pixel_rel_errors cpu gpu)
    ∧ (Forall (λ x, F32.is_finite x = true) cpu →
       Forall (λ x, F32.is_finite x = true) gpu →
       is_max me (pixel_abs_errors cpu gpu)
       ∧ is_max mre (pixel_rel_errors cpu gpu)).
Proof.
  intros Hcpu Hgpu. unfold Model.check_cpu_reference.
  rewrite !take_ge by lia. rewrite check_fold_pixel_errors.
  eexists _, _. split; [reflexivity|].
  pose proof (fmax_fold_not_exceeded (pixel_abs_errors cpu gpu)) as Habs.
  pose proof (fmax_fold_not_exceeded (pixel_rel_errors cpu gpu)) as Hrel.
  split; [exact Habs|]. split; [exact Hrel|]. intros Hfc Hfg. split.
  - apply not_exceeded_is_max; [exact Habs | now apply pixel_abs_errors_signed].
  - apply not_exceeded_is_max; [exact Hrel | now apply pixel_rel_errors_signed].
Qed.

(** On [cpu_buffer] and [gpu_buffer] the per-pixel errors are 1, 5, 0, 1 and
    1/2, 0, 1/8 (the pixel with cpu = 0 has no relative error). *)
Lemma check_cpu_reference_maxima_witness :
  (Z.of_nat (length cpu_buffer) = 4 ∧ Z.of_nat (length gpu_buffer) = 4
   ∧ Forall (λ x, F32.is_finite x = true) cpu_buffer
   ∧ Forall (λ x, F32.is_finite x = true) gpu_buffer)
  ∧ Model.check_cpu_reference cpu_buffer gpu_buffer 4 F32.zero F32.zero
    = Returned (F32.of_Z 5, F32.div (F32.of_Z 1) (F32.of_Z 2))
  ∧ is_max (F32.of_Z 5) (pixel_abs_errors cpu_buffer gpu_buffer)
  ∧ is_max (F32.div (F32.of_Z 1) (F32.of_Z 2))
           (pixel_rel_errors cpu_buffer gpu_buffer).
Proof.
  assert (Hc : Forall (λ x, F32.is_finite x = true) cpu_buffer)
    by (repeat constructor).
  assert (Hg : Forall (λ x, F32.is_finite x = true) gpu_buffer)
    by (repeat constructor).
  split; [repeat split; [exact Hc | exact Hg]|].
  destruct (check_cpu_reference_maxima cpu_buffer gpu_buffer 4 F32.zero F32.zero
              eq_refl eq_refl) as (me & mre & Heq & _ & _ & Hmax).
  injection Heq as <- <-.
  split; [reflexivity | exact (Hmax Hc Hg)].
Defined.

(** The tiled pipeline carries the running sum across tiles: a line of 70
    ones spans three tiles. *)
Example tiled_pass_three_tiles :
  Model.tiled_pass Model.TILE (vec_to_list sat_weights) (ones 70)
  = F32.of_Z <$> seqZ 1 70.
Proof. vm_compute. reflexivity. Qed.


(** * The schedule of the driver *)

Section DriverSchedule.

Context {C : Collaborators}.

Lemma sat_trace h_img width height runtimes w border btype :
  trace (sat h_img width height runtimes w border btype)
  = sat_calls width height runtimes w border btype.
Proof.
  unfold sat, sat_calls.
  destruct (border =? 0); [|destruct (border >? 0)]; reflexivity.
Qed.

Lemma M_eta {A : Type} (m : M A) : MkM (trace m) (outcome m) = m.
Proof. now destruct m. Qed.

Lemma bind_cases {A B : Type} (m : M A) (k : A → M B) :
  m ≫= k =
  match outcome m with
  | Returned a => MkM (trace m ++ trace (k a)) (outcome (k a))
  | Aborted why => MkM (trace m) (Aborted why)
  end.
Proof. reflexivity. Qed.

(** [main] after [initial_setup] returned, one case per collaborator that
    may not return. *)
Lemma main_cases argc argv l :
  initial_setup argc argv = Returned l →
  let w := sat_weights in
  let info := if l_runtimes l =? 1
              then [Ev_print_info (l_width l) (l_height l) (l_btype l)
                                  (l_border l) (l_a0border l) w]
              else [] in
  let calls := sat_calls (l_width l) (l_height l) (l_runtimes l) w
                         (l_border l) (l_btype l) in
  let ref := Ev_ref_sat_cpu (l_width l) (l_height l) w (l_a0border l)
                            (l_btype l) in
  let ne := int_mul (l_width l) (l_height l) in
  main argc argv =
  match (if l_runtimes l =? 1
         then print_info (l_width l) (l_height l) (l_btype l) (l_border l)
                         (l_a0border l) w
         else Returned tt) with
  | Aborted why => MkM info (Aborted why)
  | Returned _ =>
      match ref_sat_cpu (l_cpu_img l) (l_width l) (l_height l) w
                        (l_a0border l) (l_btype l) with
      | Aborted why => MkM (info ++ [ref]) (Aborted why)
      | Returned cpu =>
          match outcome (sat (l_gpu_img l) (l_width l) (l_height l)
                             (l_runtimes l) w (l_border l) (l_btype l)) with
          | Aborted why => MkM (info ++ ref :: calls) (Aborted why)
          | Returned gpu =>
              match check_cpu_reference cpu gpu ne (l_me l) (l_mre l) with
              | Aborted why =>
                  MkM (info ++ ref :: calls ++ [Ev_check_cpu_reference ne])
                      (Aborted why)
              | Returned (me, mre) => MkM (schedule l me mre) (Returned 0)
              end
          end
      end
  end.
Proof.
  intros Hsetup. cbn zeta. unfold main.
  rewrite (bind_returned _ _ l) by exact Hsetup.
  cbn zeta. rewrite !set_sat_weights_eq. cbn [lift trace app].
  rewrite M_eta, bind_cases.
  destruct (l_runtimes l =? 1) eqn:Hrt; cbn [call mret M_ret outcome trace].
  - destruct (print_info _ _ _ _ _ _) as [[]|why]; [|reflexivity].
    rewrite bind_cases. cbn [call outcome trace].
    destruct (ref_sat_cpu _ _ _ _ _ _) as [cpu|why]; [|reflexivity].
    rewrite bind_cases, sat_trace.
    destruct (outcome (sat _ _ _ _ _ _ _)) as [gpu|why]; [|reflexivity].
    rewrite bind_cases. cbn [call outcome trace].
    destruct (check_cpu_reference _ _ _ _ _) as [[me mre]|why]; [|reflexivity].
    unfold schedule, engine_calls. rewrite Hrt. cbn. now rewrite <- !app_assoc.
  - rewrite bind_cases. cbn [call outcome trace].
    destruct (ref_sat_cpu _ _ _ _ _ _) as [cpu|why]; [|reflexivity].
    rewrite bind_cases, sat_trace.
    destruct (outcome (sat _ _ _ _ _ _ _)) as [gpu|why]; [|reflexivity].
    rewrite bind_cases. cbn [call outcome trace].
    destruct (check_cpu_reference _ _ _ _ _) as [[me mre]|why]; [|reflexivity].
    unfold schedule, engine_calls. rewrite Hrt. cbn. now rewrite <- !app_assoc.
Qed.

(** The outcome alone. *)
Lemma main_outcome argc argv l :
  initial_setup argc argv = Returned l →
  outcome (main argc argv) =
  match (if l_runtimes l =? 1
         then print_info (l_width l) (l_height l) (l_btype l) (l_border l)
                         (l_a0border l) sat_weights
         else Returned tt) with
  | Aborted why => Aborted why
  | Returned _ =>
      match ref_sat_cpu (l_cpu_img l) (l_width l) (l_height l) sat_weights
                        (l_a0border l) (l_btype l) with
      | Aborted why => Aborted why
      | Returned cpu =>
          match outcome (sat (l_gpu_img l) (l_width l) (l_height l)
                             (l_runtimes l) sat_weights (l_border l)
                             (l_btype l)) with
          | Aborted why => Aborted why
          | Returned gpu =>
              match check_cpu_reference cpu gpu
                      (int_mul (l_width l) (l_height l)) (l_me l) (l_mre l)
              with
              | Aborted why => Aborted why
              | Returned _ => Returned 0
              end
          end
      end
  end.
Proof.
  intros Hsetup. rewrite (main_cases _ _ _ Hsetup). cbn zeta.
  destruct (if l_runtimes l =? 1 then print_info _ _ _ _ _ _ else _)
    as [[]|]; [|reflexivity].
  destruct (ref_sat_cpu _ _ _ _ _ _); [|reflexivity].
  destruct (outcome (sat _ _ _ _ _ _ _)); [|reflexivity].
  destruct (check_cpu_reference _ _ _ _ _) as [[]|]; reflexivity.
Qed.

Lemma main_setup_aborted argc argv why :
  initial_setup argc argv = Aborted why → main argc argv = MkM [] (Aborted why).
Proof. intros H. unfold main. rewrite bind_cases. cbn. now rewrite H. Qed.

(** Every run is a prefix of the schedule; it is the whole schedule exactly
    when [main] returns, and stops before the header otherwise. *)
Lemma main_prefix argc argv l :
  initial_setup argc argv = Returned l →
  ∃ me mre,
    trace (main argc argv) `prefix_of` schedule l me mre
    ∧ (∀ status, outcome (main argc argv) = Returned status →
                 status = 0 ∧ trace (main argc argv) = schedule l me mre)
    ∧ (∀ why, outcome (main argc argv) = Aborted why →
              trace (main argc argv)
              `prefix_of` (if l_runtimes l =? 1
                           then [Ev_print_info (l_width l) (l_height l)
                                   (l_btype l) (l_border l) (l_a0border l)
                                   sat_weights]
                           else []) ++ engine_calls l).
Proof.
  intros Hsetup. rewrite (main_cases _ _ _ Hsetup). cbn zeta.
  unfold schedule, engine_calls.
  set (calls := sat_calls _ _ _ _ _ _).
  set (pinfo := print_info _ _ _ _ _ _).
  set (hdr := if l_runtimes l =? 1 then header_line else []).
  set (info := if l_runtimes l =? 1 then [_] else []).
  assert (Hinfo : ∀ why,
            (if l_runtimes l =? 1 then pinfo else Returned tt) = Aborted why →
            ∃ me mre : float,
              info `prefix_of` info ++ (Ev_ref_sat_cpu (l_width l) (l_height l)
                  sat_weights (l_a0border l) (l_btype l)
                :: calls ++ [Ev_check_cpu_reference
                               (int_mul (l_width l) (l_height l))])
                ++ hdr ++ error_line me mre).
  { intros why _. exists F32.zero, F32.zero. now apply prefix_app_r. }
  destruct (if l_runtimes l =? 1 then pinfo else Returned tt) as [[]|why].
  2:{ destruct (Hinfo why eq_refl) as (me & mre & Hp). exists me, mre.
      cbn [trace outcome].
      split; [exact Hp|]. split; [discriminate|].
      intros _ _. now apply prefix_app_r. }
  clear Hinfo.
  destruct (ref_sat_cpu _ _ _ _ _ _) as [cpu|why].
  2:{ exists F32.zero, F32.zero. cbn [trace outcome].
      split; [|split]; [ | discriminate | intros _ _ ];
        apply prefix_app; cbn [app]; apply prefix_cons, prefix_nil. }
  destruct (outcome (sat _ _ _ _ _ _ _)) as [gpu|why].
  2:{ exists F32.zero, F32.zero. cbn [trace outcome].
      split; [|split]; [ | discriminate | intros _ _ ];
        apply prefix_app; cbn [app]; apply prefix_cons;
        repeat first [reflexivity | apply prefix_app_r]. }
  destruct (check_cpu_reference _ _ _ _ _) as [[me mre]|why].
  - exists me, mre. cbn [trace outcome].
    split; [reflexivity|]. split; [|discriminate].
    intros status [= <-]. split; reflexivity.
  - exists F32.zero, F32.zero. cbn [trace outcome].
    split; [|split]; [ | discriminate | intros _ _ ];
      apply prefix_app; cbn [app]; apply prefix_cons;
      repeat first [reflexivity | apply prefix_app_r].
Qed.

Lemma elem_of_sat_calls e width height runtimes w border btype :
  e ∈ sat_calls width height runtimes w border btype →
  (border = 0 ∧ e = Ev_sat_gpu_false width height runtimes w)
  ∨ (0 < border ∧ e = Ev_sat_gpu_true width height runtimes w border btype).
Proof.
  unfold sat_calls.
  destruct (Z.eqb_spec border 0) as [E|E];
    [|destruct (Z.gtb_spec border 0) as [E'|E']]; intros He.
  - apply list_elem_of_singleton in He. now left.
  - apply list_elem_of_singleton in He. right. split; [lia | exact He].
  - now apply elem_of_nil in He.
Qed.

(** The events of a schedule, by kind. *)
Lemma elem_of_schedule e l me mre :
  e ∈ schedule l me mre →
  (l_runtimes l = 1
   ∧ e = Ev_print_info (l_width l) (l_height l) (l_btype l) (l_border l)
                       (l_a0border l) sat_weights)
  ∨ e = Ev_ref_sat_cpu (l_width l) (l_height l) sat_weights (l_a0border l)
                       (l_btype l)
  ∨ e ∈ sat_calls (l_width l) (l_height l) (l_runtimes l) sat_weights
                  (l_border l) (l_btype l)
  ∨ e = Ev_check_cpu_reference (int_mul (l_width l) (l_height l))
  ∨ is_cout e = true.
Proof.
  unfold schedule, engine_calls. rewrite !elem_of_app, elem_of_cons, elem_of_app.
  rewrite list_elem_of_singleton.
  intros [He|[[He|[He|He]]|[He|He]]].
  - left. destruct (Z.eqb_spec (l_runtimes l) 1) as [E|E].
    + apply list_elem_of_singleton in He. now split.
    + now apply elem_of_nil in He.
  - right. now left.
  - right. right. now left.
  - right. right. right. now left.
  - right. right. right. right.
    destruct (l_runtimes l =? 1); [|now apply elem_of_nil in He].
    unfold header_line in He. rewrite !elem_of_cons in He.
    destruct He as [->|[->|[->|[->|He]]]]; try reflexivity.
    now apply elem_of_nil in He.
  - right. right. right. right.
    unfold error_line in He. rewrite !elem_of_cons in He.
    destruct He as [->|[->|[->|[->|[->|He]]]]]; try reflexivity.
    now apply elem_of_nil in He.
Qed.

(** The events of any run are events of the schedule of its setup. *)
Lemma elem_of_main e argc argv :
  e ∈ trace (main argc argv) →
  ∃ l me mre, initial_setup argc argv = Returned l ∧ e ∈ schedule l me mre.
Proof.
  destruct (initial_setup argc argv) as [l|why] eqn:Hsetup.
  - destruct (main_prefix _ _ _ Hsetup) as (me & mre & Hpre & _).
    intros He. exists l, me, mre. split; [reflexivity|].
    eapply elem_of_prefix; eassumption.
  - rewrite (main_setup_aborted _ _ _ Hsetup). cbn.
    intros He. now apply elem_of_nil in He.
Qed.

(** ** What every run keeps to *)

(** X1: each engine variant is called only in its own range of border
    extents, and with the values [initial_setup] produced: a call of
    [sat_gpu<true>] always carries a strictly positive border extent, and
    [sat_gpu<false>] is called only when the border extent is 0. *)
Theorem engines_called_in_their_border_range argc argv :
  (∀ width height runtimes w border btype,
     Ev_sat_gpu_true width height runtimes w border btype
     ∈ trace (main argc argv) →
     0 < border
     ∧ ∃ l, initial_setup argc argv = Returned l
            ∧ width = l_width l ∧ height = l_height l
            ∧ runtimes = l_runtimes l ∧ w = sat_weights
            ∧ border = l_border l ∧ btype = l_btype l)
  ∧ (∀ width height runtimes w,
       Ev_sat_gpu_false width height runtimes w ∈ trace (main argc argv) →
       ∃ l, initial_setup argc argv = Returned l
            ∧ l_border l = 0
            ∧ width = l_width l ∧ height = l_height l
            ∧ runtimes = l_runtimes l ∧ w = sat_weights).
Proof.
  split.
  - intros width height runtimes w border btype He.
    apply elem_of_main in He as (l & me & mre & Hsetup & He).
    apply elem_of_schedule in He as [[_ He]|[He|[He|[He|He]]]];
      try discriminate.
    apply elem_of_sat_calls in He as [[_ He]|[Hpos He]]; [discriminate|].
    injection He as -> -> -> -> -> ->.
    split; [exact Hpos|]. exists l. repeat split. exact Hsetup.
  - intros width height runtimes w He.
    apply elem_of_main in He as (l & me & mre & Hsetup & He).
    apply elem_of_schedule in He as [[_ He]|[He|[He|[He|He]]]];
      try discriminate.
    apply elem_of_sat_calls in He as [[Hz He]|[_ He]]; [|discriminate].
    injection He as -> -> -> ->.
    exists l. repeat split; assumption.
Qed.

(** X2: the order of events is fixed by what [initial_setup] produced:
    every run is a prefix of the schedule (configuration report when
    debugging, reference engine, accelerated engine, checker, header when
    debugging, error line), so no call is repeated or reordered, and a run
    that returns is the whole schedule. *)
Theorem main_follows_schedule argc argv l :
  initial_setup argc argv = Returned l →
  ∃ me mre,
    trace (main argc argv) `prefix_of` schedule l me mre
    ∧ (∀ status, outcome (main argc argv) = Returned status →
                 trace (main argc argv) = schedule l me mre).
Proof.
  intros Hsetup.
  destruct (main_prefix _ _ _ Hsetup) as (me & mre & Hpre & Hret & _).
  exists me, mre. split; [exact Hpre|].
  intros status Hst. now apply (Hret status).
Qed.

Lemma engine_calls_no_cout l :
  Forall (λ e, is_cout e = false)
    ((if l_runtimes l =? 1
      then [Ev_print_info (l_width l) (l_height l) (l_btype l) (l_border l)
                          (l_a0border l) sat_weights]
      else []) ++ engine_calls l).
Proof.
  apply Forall_app. split.
  - destruct (l_runtimes l =? 1); repeat constructor.
  - unfold engine_calls, sat_calls.
    destruct (l_border l =? 0); [|destruct (l_border l >? 0)];
      repeat constructor.
Qed.

(** X3: nothing is inserted into [std::cout] unless the run completes: a
    run in which a collaborator does not return prints neither the header
    nor any error scalar, and a run that returns ends with the line of the
    two error scalars. *)
Theorem main_prints_only_on_completion argc argv :
  (∀ why, outcome (main argc argv) = Aborted why →
          Forall (λ e, is_cout e = false) (trace (main argc argv)))
  ∧ (∀ status, outcome (main argc argv) = Returned status →
               ∃ t me mre, trace (main argc argv) = t ++ error_line me mre).
Proof.
  destruct (initial_setup argc argv) as [l|why'] eqn:Hsetup.
  - destruct (main_prefix _ _ _ Hsetup) as (me & mre & _ & Hret & Hab).
    split.
    + intros why Hwhy. destruct (Hab why Hwhy) as [k Hk].
      pose proof (engine_calls_no_cout l) as Hall.
      rewrite Hk in Hall. now apply Forall_app in Hall as [Hall _].
    + intros status Hst. destruct (Hret status Hst) as [_ ->].
      unfold schedule. eexists _, me, mre. rewrite !app_assoc. reflexivity.
  - rewrite (main_setup_aborted _ _ _ Hsetup). cbn. split.
    + intros _ _. constructor.
    + discriminate.
Qed.

(** X4: the driver raises no error of its own: whenever a run does not
    return, the reason is the one given by the collaborator that did not
    return ([initial_setup], print_info when debugging, the reference
    engine, the engine variant selected by the border extent, or the
    checker). *)
Theorem main_aborts_only_with_a_collaborator argc argv why :
  outcome (main argc argv) = Aborted why →
  initial_setup argc argv = Aborted why
  ∨ ∃ l, initial_setup argc argv = Returned l
         ∧ ((l_runtimes l = 1
             ∧ print_info (l_width l) (l_height l) (l_btype l) (l_border l)
                          (l_a0border l) sat_weights = Aborted why)
            ∨ ref_sat_cpu (l_cpu_img l) (l_width l) (l_height l) sat_weights
                          (l_a0border l) (l_btype l) = Aborted why
            ∨ (l_border l = 0
               ∧ sat_gpu_false (l_gpu_img l) (l_width l) (l_height l)
                               (l_runtimes l) sat_weights = Aborted why)
            ∨ (0 < l_border l
               ∧ sat_gpu_true (l_gpu_img l) (l_width l) (l_height l)
                              (l_runtimes l) sat_weights (l_border l)
                              (l_btype l) = Aborted why)
            ∨ ∃ cpu gpu,
                check_cpu_reference cpu gpu (int_mul (l_width l) (l_height l))
                                    (l_me l) (l_mre l) = Aborted why).
Proof.
  destruct (initial_setup argc argv) as [l|why'] eqn:Hsetup.
  2:{ rewrite (main_setup_aborted _ _ _ Hsetup). cbn. intros [= ->]. now left. }
  rewrite (main_outcome _ _ _ Hsetup). intros Hwhy.
  right. exists l. split; [reflexivity|]. revert Hwhy.
  destruct (Z.eqb_spec (l_runtimes l) 1) as [Hrt|Hrt];
    [destruct (print_info _ _ _ _ _ _) as [[]|why1];
     [|intros [= ->]; left; now split]|];
    (destruct (ref_sat_cpu _ _ _ _ _ _) as [cpu|why2];
     [|intros [= ->]; right; now left]);
    (destruct (outcome (sat _ _ _ _ _ _ _)) as [gpu|why3] eqn:Hsat;
     [destruct (check_cpu_reference _ _ _ _ _) as [[me mre]|why4] eqn:Hcheck;
      [discriminate|];
      intros [= ->]; do 4 right; now exists cpu, gpu|]);
    intros [= ->]; do 2 right; unfold sat in Hsat;
    (destruct (Z.eqb_spec (l_border l) 0) as [E|E]; [left; now split|]);
    (destruct (Z.gtb_spec (l_border l) 0) as [E'|E']; [|discriminate]);
    right; left; (split; [lia | exact Hsat]).
Qed.

(** X5: the checker is called only after both engines returned: whenever
    a run calls check_cpu_reference, the reference engine and [sat] have
    returned, and the element count passed is the [int] product
    [width * height] of the dimensions [initial_setup] produced. *)
Theorem checker_runs_after_both_engines argc argv ne :
  Ev_check_cpu_reference ne ∈ trace (main argc argv) →
  ∃ l cpu gpu,
    initial_setup argc argv = Returned l
    ∧ ref_sat_cpu (l_cpu_img l) (l_width l) (l_height l) sat_weights
                  (l_a0border l) (l_btype l) = Returned cpu
    ∧ outcome (sat (l_gpu_img l) (l_width l) (l_height l) (l_runtimes l)
                   sat_weights (l_border l) (l_btype l)) = Returned gpu
    ∧ ne = int_mul (l_width l) (l_height l).
Proof.
  destruct (initial_setup argc argv) as [l|why] eqn:Hsetup.
  2:{ rewrite (main_setup_aborted _ _ _ Hsetup). cbn.
      intros He. now apply elem_of_nil in He. }
  intros He.
  assert (Hne : ne = int_mul (l_width l) (l_height l)).
  { apply elem_of_main in He as (l' & me & mre & Hl' & He).
    rewrite Hsetup in Hl'. injection Hl' as <-.
    apply elem_of_schedule in He as [[_ He]|[He|[He|[He|He]]]];
      try discriminate.
    - apply elem_of_sat_calls in He as [[_ He]|[_ He]]; discriminate.
    - now injection He. }
  assert (Hinfo : ¬ Ev_check_cpu_reference ne
                    ∈ (if l_runtimes l =? 1
                       then [Ev_print_info (l_width l) (l_height l) (l_btype l)
                               (l_border l) (l_a0border l) sat_weights]
                       else [])).
  { destruct (l_runtimes l =? 1); intros H.
    - apply list_elem_of_singleton in H. discriminate.
    - now apply elem_of_nil in H. }
  assert (Hcalls : ¬ Ev_check_cpu_reference ne
                     ∈ sat_calls (l_width l) (l_height l) (l_runtimes l)
                         sat_weights (l_border l) (l_btype l)).
  { intros H. apply elem_of_sat_calls in H as [[_ H]|[_ H]]; discriminate. }
  revert He. rewrite (main_cases _ _ _ Hsetup). cbn zeta.
  destruct (if l_runtimes l =? 1 then print_info _ _ _ _ _ _ else _)
    as [[]|]; [|cbn; intros He; now destruct Hinfo].
  destruct (ref_sat_cpu _ _ _ _ _ _) as [cpu|] eqn:Href; cbn [trace].
  2:{ rewrite elem_of_app, list_elem_of_singleton. intros [He|He];
        [now destruct Hinfo | discriminate]. }
  destruct (outcome (sat _ _ _ _ _ _ _)) as [gpu|] eqn:Hsat; cbn [trace].
  2:{ rewrite elem_of_app, elem_of_cons. intros [He|[He|He]];
        [now destruct Hinfo | discriminate | now destruct Hcalls]. }
  intros _. now exists l, cpu, gpu.
Qed.

(** X6: given that [initial_setup] returned, print_info is called exactly
    in debugging runs, whatever the other collaborators do: the trace has a
    print_info call if and only if the repetition count is 1, and it is
    then the first event, before any engine runs. *)
Theorem print_info_iff_debugging argc argv l :
  initial_setup argc argv = Returned l →
  (Exists (λ e, is_print_info e = true) (trace (main argc argv))
   ↔ l_runtimes l = 1)
  ∧ (l_runtimes l = 1 →
     head (trace (main argc argv))
     = Some (Ev_print_info (l_width l) (l_height l) (l_btype l) (l_border l)
                           (l_a0border l) sat_weights)).
Proof.
  intros Hsetup.
  assert (Hhead : l_runtimes l = 1 →
            head (trace (main argc argv))
            = Some (Ev_print_info (l_width l) (l_height l) (l_btype l)
                      (l_border l) (l_a0border l) sat_weights)).
  { intros Hrt. rewrite (main_cases _ _ _ Hsetup). cbn zeta.
    unfold schedule. rewrite Hrt. cbn [Z.eqb Pos.eqb].
    destruct (print_info _ _ _ _ _ _) as [[]|]; [|reflexivity].
    destruct (ref_sat_cpu _ _ _ _ _ _); [|reflexivity].
    destruct (outcome (sat _ _ _ _ _ _ _)); [|reflexivity].
    destruct (check_cpu_reference _ _ _ _ _) as [[]|]; reflexivity. }
  split; [split|exact Hhead].
  - rewrite Exists_exists. intros (e & He & Hpi).
    apply elem_of_main in He as (l' & me & mre & Hl' & He).
    rewrite Hsetup in Hl'. injection Hl' as <-.
    apply elem_of_schedule in He as [[Hrt _]|[->|[He|[->|He]]]];
      try discriminate; [exact Hrt| |].
    + apply elem_of_sat_calls in He as [[_ ->]|[_ ->]]; discriminate.
    + destruct e; discriminate.
  - intros Hrt. specialize (Hhead Hrt). rewrite Exists_exists.
    destruct (trace (main argc argv)) as [|e t]; [discriminate|].
    injection Hhead as ->. eexists. split; [apply elem_of_cons; now left|].
    reflexivity.
Qed.

Lemma int_mul_exact (a b : Z) :
  - 2 ^ 31 ≤ a * b < 2 ^ 31 → int_mul a b = a * b.
Proof.
  intros H. unfold int_mul, int_wrap. rewrite Z.mod_small; lia.
Qed.

(** X7: for dimensions between 0 and 46340 the product [width * height]
    does not overflow [int]: on a run whose collaborators return, the
    checker is called on exactly [width * height] elements. *)
Theorem checker_covers_every_pixel argc argv l cpu gpu me mre :
  run_returns argc argv l cpu gpu me mre →
  0 ≤ l_width l ≤ 46340 → 0 ≤ l_height l ≤ 46340 →
  Ev_check_cpu_reference (l_width l * l_height l) ∈ trace (main argc argv)
  ∧ check_cpu_reference cpu gpu (l_width l * l_height l) (l_me l) (l_mre l)
    = Returned (me, mre).
Proof.
  intros Hrun Hw Hh.
  assert (Hmul : int_mul (l_width l) (l_height l) = l_width l * l_height l)
    by (apply int_mul_exact; nia).
  split.
  - rewrite (main_returns _ _ _ _ _ _ _ Hrun). cbn [trace]. rewrite <- Hmul.
    apply elem_of_app. right. apply elem_of_cons. right.
    apply elem_of_app. right. apply elem_of_cons. now left.
  - rewrite <- Hmul. apply Hrun.
Qed.

End DriverSchedule.

(** ** The schedule on the modelled collaborators *)

Lemma engines_called_in_their_border_range_witness :
  Ev_sat_gpu_true 4 4 1000 sat_weights 1 bt_clamp
  ∈ trace (main (C := fixture 1000 1 bt_clamp) 6 [])
  ∧ 0 < 1
  ∧ ∃ l, initial_setup (Collaborators := fixture 1000 1 bt_clamp) 6 []
         = Returned l
         ∧ 4 = l_width l ∧ 4 = l_height l ∧ 1000 = l_runtimes l
         ∧ sat_weights = sat_weights ∧ 1 = l_border l ∧ bt_clamp = l_btype l.
Proof.
  assert (He : Ev_sat_gpu_true 4 4 1000 sat_weights 1 bt_clamp
               ∈ trace (main (C := fixture 1000 1 bt_clamp) 6 [])).
  { do 2 constructor. }
  split; [exact He|].
  exact (proj1 (engines_called_in_their_border_range
                  (C := fixture 1000 1 bt_clamp) 6 []) _ _ _ _ _ _ He).
Defined.

Lemma main_follows_schedule_witness :
  initial_setup (Collaborators := fixture 1 0 bt_zero) 1 []
  = Returned (locals_4x4 1 0 bt_zero)
  ∧ ∃ me mre,
      trace (main (C := fixture 1 0 bt_zero) 1 [])
      `prefix_of` schedule (locals_4x4 1 0 bt_zero) me mre
      ∧ (∀ status,
           outcome (main (C := fixture 1 0 bt_zero) 1 []) = Returned status →
           trace (main (C := fixture 1 0 bt_zero) 1 [])
           = schedule (locals_4x4 1 0 bt_zero) me mre).
Proof.
  split; [reflexivity|].
  apply (main_follows_schedule (C := fixture 1 0 bt_zero) 1 []). reflexivity.
Defined.

Lemma main_prints_only_on_completion_witness :
  outcome (main (C := rejecting) 1 []) = Aborted "configuration error"
  ∧ Forall (λ e, is_cout e = false) (trace (main (C := rejecting) 1 [])).
Proof.
  split; [reflexivity|].
  apply (proj1 (main_prints_only_on_completion (C := rejecting) 1 [])
           "configuration error"%string).
  reflexivity.
Defined.

Lemma main_aborts_only_with_a_collaborator_witness :
  outcome (main (C := rejecting) 1 []) = Aborted "configuration error"
  ∧ (initial_setup (Collaborators := rejecting) 1 []
     = Aborted "configuration error"
     ∨ ∃ l, initial_setup (Collaborators := rejecting) 1 [] = Returned l
            ∧ ((l_runtimes l = 1
                ∧ print_info (Collaborators := rejecting)
                    (l_width l) (l_height l) (l_btype l) (l_border l)
                    (l_a0border l) sat_weights
                  = Aborted "configuration error")
               ∨ ref_sat_cpu (Collaborators := rejecting)
                   (l_cpu_img l) (l_width l) (l_height l) sat_weights
                   (l_a0border l) (l_btype l)
                 = Aborted "configuration error"
               ∨ (l_border l = 0
                  ∧ sat_gpu_false (Collaborators := rejecting)
                      (l_gpu_img l) (l_width l) (l_height l) (l_runtimes l)
                      sat_weights
                    = Aborted "configuration error")
               ∨ (0 < l_border l
                  ∧ sat_gpu_true (Collaborators := rejecting)
                      (l_gpu_img l) (l_width l) (l_height l) (l_runtimes l)
                      sat_weights (l_border l) (l_btype l)
                    = Aborted "configuration error")
               ∨ ∃ cpu gpu,
                   check_cpu_reference (Collaborators := rejecting) cpu gpu
                     (int_mul (l_width l) (l_height l)) (l_me l) (l_mre l)
                   = Aborted "configuration error")).
Proof.
  split; [reflexivity|].
  apply (main_aborts_only_with_a_collaborator (C := rejecting) 1 []).
  reflexivity.
Defined.

Lemma checker_runs_after_both_engines_witness :
  Ev_check_cpu_reference 16 ∈ trace (main (C := fixture 1000 0 bt_repeat) 6 [])
  ∧ ∃ l cpu gpu,
      initial_setup (Collaborators := fixture 1000 0 bt_repeat) 6 []
      = Returned l
      ∧ ref_sat_cpu (Collaborators := fixture 1000 0 bt_repeat)
          (l_cpu_img l) (l_width l) (l_height l) sat_weights (l_a0border l)
          (l_btype l) = Returned cpu
      ∧ outcome (sat (C := fixture 1000 0 bt_repeat) (l_gpu_img l) (l_width l)
                     (l_height l) (l_runtimes l) sat_weights (l_border l)
                     (l_btype l)) = Returned gpu
      ∧ 16 = int_mul (l_width l) (l_height l).
Proof.
  assert (He : Ev_check_cpu_reference 16
               ∈ trace (main (C := fixture 1000 0 bt_repeat) 6 []))
    by (do 3 constructor).
  split; [exact He|].
  exact (checker_runs_after_both_engines (C := fixture 1000 0 bt_repeat)
           6 [] 16 He).
Defined.

Lemma print_info_iff_debugging_witness :
  initial_setup (Collaborators := fixture 1 0 bt_reflect) 1 []
  = Returned (locals_4x4 1 0 bt_reflect)
  ∧ (Exists (λ e, is_print_info e = true)
            (trace (main (C := fixture 1 0 bt_reflect) 1 []))
     ↔ l_runtimes (locals_4x4 1 0 bt_reflect) = 1)
  ∧ (l_runtimes (locals_4x4 1 0 bt_reflect) = 1 →
     head (trace (main (C := fixture 1 0 bt_reflect) 1 []))
     = Some (Ev_print_info 4 4 bt_reflect 0 0 sat_weights)).
Proof.
  split; [reflexivity|].
  apply (print_info_iff_debugging (C := fixture 1 0 bt_reflect) 1 []
           (locals_4x4 1 0 bt_reflect)).
  reflexivity.
Defined.

Lemma checker_covers_every_pixel_witness :
  (run_returns (C := fixture 1 0 bt_clamp) 1 [] (locals_4x4 1 0 bt_clamp)
     sat_table_4x4 sat_table_4x4 F32.zero F32.zero
   ∧ 0 ≤ 4 ≤ 46340)
  ∧ Ev_check_cpu_reference (4 * 4)
    ∈ trace (main (C := fixture 1 0 bt_clamp) 1 [])
  ∧ check_cpu_reference (Collaborators := fixture 1 0 bt_clamp)
      sat_table_4x4 sat_table_4x4 (4 * 4) F32.zero F32.zero
    = Returned (F32.zero, F32.zero).
Proof.
  assert (Hrun : run_returns (C := fixture 1 0 bt_clamp) 1 []
                   (locals_4x4 1 0 bt_clamp) sat_table_4x4 sat_table_4x4
                   F32.zero F32.zero)
    by (unfold run_returns; repeat split; reflexivity).
  split; [split; [exact Hrun | lia]|].
  apply (checker_covers_every_pixel (C := fixture 1 0 bt_clamp) 1 []
           (locals_4x4 1 0 bt_clamp) _ _ _ _ Hrun); simpl; lia.
Defined.

(** * Out-of-range configuration *)

(** Negative dimensions are rejected by the modelled engines, and the
    reference engine is the first to receive them: the run stops there with
    the configuration-error signal, before [sat] is reached. *)
Lemma negative_dimension_rejected setup argc argv l :
  setup argc argv = Returned l →
  l_width l < 0 ∨ l_height l < 0 →
  outcome (main (C := model_collaborators setup) argc argv)
  = Aborted "configuration error"
  ∧ Forall (λ e, is_dispatch e = false)
           (trace (main (C := model_collaborators setup) argc argv)).
Proof.
  intros Hsetup Hneg.
  rewrite (main_cases (C := model_collaborators setup) _ _ _ Hsetup).
  cbn zeta.
  assert (Href : ref_sat_cpu (Collaborators := model_collaborators setup)
                   (l_cpu_img l) (l_width l) (l_height l) sat_weights
                   (l_a0border l) (l_btype l) = Aborted "configuration error").
  { cbn. unfold Model.ref_sat_cpu, Model.bad_config.
    destruct Hneg as [H|H].
    - apply Z.ltb_lt in H. now rewrite H.
    - apply Z.ltb_lt in H. rewrite H. now rewrite orb_true_r. }
  rewrite Href.
  destruct (l_runtimes l =? 1); cbn; (split; [reflexivity|]);
    repeat (apply Forall_cons; split; [reflexivity|]); constructor.
Qed.

(** C3 (amended): an unsupported filter order cannot reach a run (the
    order is the compile-time constant 1 and the weight vector has exactly
    two entries), and negative dimensions make the run fail with the
    configuration-error signal before any parallel filtering work is
    dispatched; a negative border extent is the exception: it is not
    rejected but silently ignored, no parallel filtering work is dispatched,
    the checker receives the unfiltered image, the error scalars are
    printed and the exit status is 0. *)
Theorem out_of_range_configuration :
  (ORDER = 1%nat ∧ ∀ w : weights, length (vec_to_list w) = 2%nat)
  ∧ (∀ setup argc argv l,
       setup argc argv = Returned l →
       l_width l < 0 ∨ l_height l < 0 →
       outcome (main (C := model_collaborators setup) argc argv)
       = Aborted "configuration error"
       ∧ Forall (λ e, is_dispatch e = false)
                (trace (main (C := model_collaborators setup) argc argv)))
  ∧ (∀ (C : Collaborators) argc argv l cpu me mre,
       initial_setup argc argv = Returned l →
       l_border l < 0 →
       (l_runtimes l = 1 →
        print_info (l_width l) (l_height l) (l_btype l) (l_border l)
                   (l_a0border l) sat_weights = Returned tt) →
       ref_sat_cpu (l_cpu_img l) (l_width l) (l_height l) sat_weights
                   (l_a0border l) (l_btype l) = Returned cpu →
       check_cpu_reference cpu (l_gpu_img l) (int_mul (l_width l) (l_height l))
                           (l_me l) (l_mre l) = Returned (me, mre) →
       sat (l_gpu_img l) (l_width l) (l_height l) (l_runtimes l) sat_weights
           (l_border l) (l_btype l) = MkM [] (Returned (l_gpu_img l))
       ∧ Forall (λ e, is_dispatch e = false) (trace (main argc argv))
       ∧ console (trace (main argc argv)) =
         (if l_runtimes l =? 1
          then Ev_print_info (l_width l) (l_height l) (l_btype l) (l_border l)
                             (l_a0border l) sat_weights :: header_line
          else [])
         ++ error_line me mre
       ∧ outcome (main argc argv) = Returned 0).
Proof.
  split; [split; [reflexivity | intros w; apply length_vec_to_list]|].
  split.
  - apply negative_dimension_rejected.
  - intros C argc argv l cpu me mre Hsetup Hneg Hinfo Href Hcheck. split.
    + unfold sat.
      destruct (Z.eqb_spec (l_border l) 0) as [E|_]; [lia|].
      destruct (Z.gtb_spec (l_border l) 0) as [E|_]; [lia|]. reflexivity.
    + now apply (negative_border_is_ignored _ _ l cpu me mre).
Qed.

Lemma out_of_range_configuration_witness :
  (l_width locals_negative_width < 0
   ∧ outcome (main (C := rejecting) 1 []) = Aborted "configuration error"
   ∧ Forall (λ e, is_dispatch e = false) (trace (main (C := rejecting) 1 [])))
  ∧ (l_border (locals_4x4 1 (-1) bt_repeat) < 0
     ∧ Forall (λ e, is_dispatch e = false)
              (trace (main (C := fixture 1 (-1) bt_repeat) 1 []))
     ∧ console (trace (main (C := fixture 1 (-1) bt_repeat) 1 [])) =
       (Ev_print_info 4 4 bt_repeat (-1) 0 sat_weights :: header_line)
       ++ error_line (F32.of_Z 15) (F32.div (F32.of_Z 15) (F32.of_Z 16))
     ∧ outcome (main (C := fixture 1 (-1) bt_repeat) 1 []) = Returned 0).
Proof.
  split.
  - split; [simpl; lia|].
    apply (proj1 (proj2 out_of_range_configuration)
             (setup_with locals_negative_width) 1 [] locals_negative_width);
      [reflexivity | left; simpl; lia].
  - split; [simpl; lia|].
    apply (proj2 (proj2 out_of_range_configuration)
             (fixture 1 (-1) bt_repeat) 1 [] (locals_4x4 1 (-1) bt_repeat)
             sat_table_4x4);
      [reflexivity | simpl; lia | reflexivity | reflexivity | reflexivity].
Defined.

(** * Accuracy of the accelerated engine *)

(** ** Rounding of binary32 *)

(** The number of binary digits of a positive number. *)
Lemma digits2_log2 (p : positive) :
  Z.pos (digits2_pos p) = Z.log2 (Z.pos p) + 1.
Proof.
  assert (H : ∀ q, digits2_pos q = Pos.size q)
    by (induction q as [q IH|q IH|]; cbn; congruence).
  rewrite H. destruct p as [p|p|]; cbn; lia.
Qed.

Lemma digits2_shift (p : positive) (k : Z) :
  0 ≤ k → Zdigits2 (Z.pos p * 2 ^ k) = Z.pos (digits2_pos p) + k.
Proof.
  intros Hk.
  assert (Hpos : 0 < Z.pos p * 2 ^ k) by (apply Z.mul_pos_pos; [lia|]; now apply Z.pow_pos_nonneg).
  destruct (Z.pos p * 2 ^ k) as [|q|q] eqn:E; try lia.
  cbn [Zdigits2]. rewrite !digits2_log2, <- E.
  rewrite Z.log2_mul_pow2 by lia. lia.
Qed.

Lemma digits2_spec (p : positive) :
  2 ^ (Z.pos (digits2_pos p) - 1) ≤ Z.pos p < 2 ^ Z.pos (digits2_pos p).
Proof.
  rewrite digits2_log2. replace (Z.log2 (Z.pos p) + 1 - 1) with (Z.log2 (Z.pos p)) by lia.
  replace (Z.log2 (Z.pos p) + 1) with (Z.succ (Z.log2 (Z.pos p))) by lia.
  apply Z.log2_spec. lia.
Qed.

Lemma digits2_unique (p : positive) (d : Z) :
  2 ^ (d - 1) ≤ Z.pos p < 2 ^ d → Z.pos (digits2_pos p) = d.
Proof.
  intros [H1 H2]. rewrite digits2_log2.
  assert (0 < d).
  { destruct d as [|d|d]; [cbn in H2; lia | lia |].
    rewrite Z.pow_neg_r in H2 by lia. lia. }
  assert (Z.log2 (Z.pos p) = d - 1); [|lia].
  apply Z.log2_unique; [lia|].
  replace (Z.succ (d - 1)) with d by lia. now split.
Qed.

Lemma fexp_eq (k : Z) : fexp 24 128 k = Z.max (k - 24) (-149).
Proof. reflexivity. Qed.

Lemma bounded_spec (m : positive) (e : Z) :
  bounded 24 128 m e = true
  ↔ Z.max (Z.pos (digits2_pos m) + e - 24) (-149) = e ∧ e ≤ 104.
Proof.
  unfold bounded, canonical_mantissa. rewrite andb_true_iff, fexp_eq.
  rewrite Z.eqb_eq, Z.leb_le. reflexivity.
Qed.

(** *** Shifting a mantissa to the right *)

Lemma shr_1_spec (m : Z) (r s : bool) :
  0 ≤ m →
  shr_1 (Build_shr_record m r s)
  = Build_shr_record (Z.div2 m) (Z.odd m) (r || s).
Proof. intros Hm. destruct m as [|[p|p|]|p]; try lia; reflexivity. Qed.

Lemma shr_inv_step (m k : Z) (mrs : shr_record) :
  0 ≤ k → shr_inv m k mrs → shr_inv m (k + 1) (shr_1 mrs).
Proof.
  intros Hk. destruct mrs as [q r s]. intros [Hq (rem & Hm & Hloc)].
  cbn [shr_m shr_r shr_s] in *. rewrite shr_1_spec by exact Hq.
  assert (HP : 0 < 2 ^ k) by now apply Z.pow_pos_nonneg.
  unfold shr_inv. rewrite Z.pow_add_r by lia. change (2 ^ 1) with 2.
  pose proof (Z.div2_odd q) as Hdiv. set (P := 2 ^ k) in *.
  split; cbn [shr_m shr_r shr_s].
  - destruct (Z.odd q); cbn [Z.b2z] in Hdiv; lia.
  - exists (rem + Z.b2z (Z.odd q) * P). split; [rewrite Hm; nia|].
    destruct (Z.odd q), r, s; cbn [Z.b2z orb] in *; lia.
Qed.

Lemma iter_shr_1_inv (m : Z) (p : positive) :
  ∀ k mrs, 0 ≤ k → shr_inv m k mrs →
    shr_inv m (k + Z.pos p) (SpecFloat.iter_pos shr_1 p mrs).
Proof.
  induction p as [p IH|p IH|]; intros k mrs Hk H; cbn [SpecFloat.iter_pos].
  - replace (k + Z.pos p~1) with (k + 1 + Z.pos p + Z.pos p) by lia.
    apply IH; [lia|]. apply IH; [lia|]. now apply shr_inv_step.
  - replace (k + Z.pos p~0) with (k + Z.pos p + Z.pos p) by lia.
    apply IH; [lia|]. now apply IH.
  - now apply shr_inv_step.
Qed.

Lemma shr_spec (m e n : Z) :
  0 ≤ m → 0 ≤ n →
  ∃ mrs, shr (Build_shr_record m false false) e n = (mrs, e + n)
         ∧ shr_inv m n mrs.
Proof.
  intros Hm Hn.
  assert (H0 : shr_inv m 0 (Build_shr_record m false false)).
  { split; [exact Hm|]. exists 0. cbn. split; lia. }
  destruct n as [|p|p]; [| |lia].
  - eexists. split; [cbn; f_equal; lia|exact H0].
  - eexists. split; [reflexivity|]. now apply (iter_shr_1_inv m p 0).
Qed.

(** Rounding to nearest even after [k] shifts: the quotient or its
    successor, at most half of [2^k] away from [m]. *)
Lemma round_nearest_even_spec (m k : Z) (mrs : shr_record) :
  0 ≤ k → shr_inv m k mrs →
  let m' := round_nearest_even (shr_m mrs) (loc_of_shr_record mrs) in
  shr_m mrs ≤ m' ≤ shr_m mrs + 1
  ∧ 2 * Z.abs (m' * 2 ^ k - m) ≤ 2 ^ k
  ∧ shr_m mrs * 2 ^ k ≤ m < (shr_m mrs + 1) * 2 ^ k.
Proof.
  intros Hk. destruct mrs as [q r s]. intros [Hq (rem & Hm & Hloc)].
  cbn [shr_m shr_r shr_s] in *.
  assert (HP : 0 < 2 ^ k) by now apply Z.pow_pos_nonneg.
  set (P := 2 ^ k) in *.
  destruct r, s; cbn [loc_of_shr_record round_nearest_even];
    try destruct (Z.even q); cbn zeta; nia.
Qed.

(** *** Rounding a mantissa and an exponent *)

Lemma pow2_le_inv (b c : Z) : 0 ≤ b → 2 ^ b ≤ 2 ^ c → b ≤ c.
Proof.
  intros Hb H. destruct (Z.le_gt_cases b c) as [|Hlt]; [easy|].
  assert (2 ^ c < 2 ^ b) by (apply Z.pow_lt_mono_r; lia). lia.
Qed.

Lemma pow2_pos (k : Z) : 0 ≤ k → 0 < 2 ^ k.
Proof. intros. now apply Z.pow_pos_nonneg. Qed.

Lemma pow2_add (a b : Z) : 0 ≤ a → 0 ≤ b → 2 ^ (a + b) = 2 ^ a * 2 ^ b.
Proof. intros. now apply Z.pow_add_r. Qed.

(** Rounding [m * 2^e] where it is not below the smallest exponent and
    cannot overflow: a number of the format, within a relative error of
    2^-24. *)
Lemma binary_round_aux_spec (s : bool) (m : positive) (e : Z) :
  -149 ≤ e →
  e ≤ fexp 24 128 (Z.pos (digits2_pos m) + e) →
  Z.pos m * 2 ^ (e + 149) ≤ 2 ^ 276 →
  ∃ m' e',
    binary_round_aux 24 128 s (Z.pos m) e loc_Exact = S754_finite s m' e'
    ∧ bounded 24 128 m' e' = true
    ∧ 2 ^ 24 * Z.abs (Z.pos m' * 2 ^ (e' + 149) - Z.pos m * 2 ^ (e + 149))
      ≤ Z.pos m * 2 ^ (e + 149).
Proof.
  intros He Hn Hv. rewrite fexp_eq in Hn.
  pose proof (digits2_spec m) as Hd.
  set (d := Z.pos (digits2_pos m)) in *.
  set (n := Z.max (d + e - 24) (-149) - e).
  assert (HE : 0 < 2 ^ (e + 149)) by (apply pow2_pos; lia).
  unfold binary_round_aux, shr_fexp. cbn [Zdigits2 shr_record_of_loc].
  rewrite fexp_eq. fold d. fold n.
  assert (Hn' : 0 ≤ n) by lia.
  destruct (shr_spec (Z.pos m) e n) as (mrs & Hshr & Hinv); [lia|lia|].
  rewrite Hshr.
  destruct (round_nearest_even_spec (Z.pos m) n mrs Hn' Hinv) as (Hq & Herr & Hlow).
  destruct Hinv as [Hq0 _].
  set (m1 := round_nearest_even (shr_m mrs) (loc_of_shr_record mrs)) in *.
  set (q := shr_m mrs) in *.
  destruct (Z.eq_dec n 0) as [Hn0|Hn0].
  - (* no shift: the mantissa is already canonical *)
    rewrite Hn0 in *. change (2 ^ 0) with 1 in *.
    assert (Hm1 : m1 = Z.pos m) by lia. rewrite Hm1.
    cbn [Zdigits2]. rewrite fexp_eq. fold d.
    replace (Z.max (d + (e + 0) - 24) (-149) - (e + 0)) with 0 by lia.
    cbn [shr shr_m].
    assert (He104 : e + 0 ≤ 104).
    { destruct (Z.eq_dec e (-149)) as [->|]; [lia|].
      assert (Hd24 : d = 24) by lia. rewrite Hd24 in Hd.
      assert (2 ^ 23 * 2 ^ (e + 149) ≤ 2 ^ 276).
      { etrans; [|exact Hv]. apply Z.mul_le_mono_nonneg_r; lia. }
      rewrite <- pow2_add in H by lia.
      apply pow2_le_inv in H; lia. }
    destruct (Z.leb_spec (e + 0) (128 - 24)); [|lia].
    exists m, (e + 0). split; [reflexivity|]. split.
    + apply bounded_spec. fold d. lia.
    + replace (e + 0 + 149) with (e + 149) by lia.
      rewrite Z.sub_diag. cbn [Z.abs]. lia.
  - (* [n = d - 24] bits are shifted out *)
    assert (Hnd : n = d - 24) by lia.
    assert (HN : 0 < 2 ^ n) by (apply pow2_pos; lia).
    assert (Hd1 : 2 ^ (d - 1) = 2 ^ 23 * 2 ^ n)
      by (rewrite <- pow2_add by lia; f_equal; lia).
    assert (Hd2 : 2 ^ d = 2 ^ 24 * 2 ^ n)
      by (rewrite <- pow2_add by lia; f_equal; lia).
    rewrite Hd1, Hd2 in Hd.
    assert (HEn : 2 ^ (e + n + 149) = 2 ^ n * 2 ^ (e + 149))
      by (rewrite <- pow2_add by lia; f_equal; lia).
    set (N := 2 ^ n) in *. set (E := 2 ^ (e + 149)) in *.
    assert (Hq23 : 2 ^ 23 ≤ q) by nia.
    assert (Hq24 : q < 2 ^ 24) by nia.
    assert (Herr' : 2 ^ 24 * Z.abs (m1 * N * E - Z.pos m * E) ≤ Z.pos m * E).
    { replace (m1 * N * E - Z.pos m * E) with ((m1 * N - Z.pos m) * E) by ring.
      rewrite Z.abs_mul, (Z.abs_eq E) by lia.
      rewrite Z.mul_assoc. apply Z.mul_le_mono_nonneg_r; lia. }
    destruct (Z.eq_dec m1 (2 ^ 24)) as [Hm1|Hm1].
    + (* the rounded mantissa carries into a 25th digit *)
      assert (Hm1' : m1 = 16777216) by lia. rewrite Hm1'.
      change (Zdigits2 16777216) with 25. rewrite fexp_eq.
      replace (Z.max (25 + (e + n) - 24) (-149) - (e + n)) with 1 by lia.
      cbn [shr SpecFloat.iter_pos shr_record_of_loc].
      change (shr_1 _) with (Build_shr_record 8388608 false false).
      cbn [shr_m].
      assert (He104 : e + n + 1 ≤ 104).
      { assert (2 ^ 23 * 2 ^ (e + n + 149) < 2 ^ 276) by (rewrite HEn; nia).
        rewrite <- pow2_add in H by lia.
        assert (23 + (e + n + 149) < 276); [|lia].
        destruct (Z.le_gt_cases 276 (23 + (e + n + 149))) as [Hc|]; [|easy].
        apply (Z.pow_le_mono_r 2) in Hc; lia. }
      destruct (Z.leb_spec (e + n + 1) (128 - 24)); [|lia].
      exists 8388608%positive, (e + n + 1). split; [reflexivity|]. split.
      * apply bounded_spec. change (Z.pos (digits2_pos 8388608)) with 24. lia.
      * replace (2 ^ (e + n + 1 + 149)) with (2 * (N * E)).
        2:{ rewrite <- HEn. replace (e + n + 1 + 149) with (1 + (e + n + 149)) by lia.
            rewrite (pow2_add 1) by lia. reflexivity. }
        replace (8388608 * (2 * (N * E))) with (m1 * N * E) by (rewrite Hm1'; ring).
        exact Herr'.
    + assert (Hm1r : 2 ^ 23 ≤ m1 < 2 ^ 24) by lia.
      destruct m1 as [|p1|p1] eqn:Em1; try lia.
      assert (Hd1' : Z.pos (digits2_pos p1) = 24) by (apply digits2_unique; exact Hm1r).
      cbn [Zdigits2]. rewrite fexp_eq, Hd1'.
      replace (Z.max (24 + (e + n) - 24) (-149) - (e + n)) with 0 by lia.
      cbn [shr shr_m shr_record_of_loc].
      assert (He104 : e + n ≤ 104).
      { assert (2 ^ 23 * 2 ^ (e + n + 149) ≤ 2 ^ 276) by (rewrite HEn; nia).
        rewrite <- pow2_add in H by lia. apply pow2_le_inv in H; lia. }
      destruct (Z.leb_spec (e + n) (128 - 24)); [|lia].
      exists p1, (e + n). split; [reflexivity|]. split.
      * apply bounded_spec. rewrite Hd1'. lia.
      * rewrite HEn. rewrite Z.mul_assoc. exact Herr'.
Qed.

Lemma iter_shr_1_exact (q : positive) :
  ∀ m, 0 ≤ m →
    SpecFloat.iter_pos shr_1 q (Build_shr_record (m * 2 ^ Z.pos q) false false)
    = Build_shr_record m false false.
Proof.
  assert (Hstep : ∀ m, 0 ≤ m →
            shr_1 (Build_shr_record (m * 2) false false)
            = Build_shr_record m false false).
  { intros [|m|m] Hm; try lia; [reflexivity|].
    replace (Z.pos m * 2) with (Z.pos m~0) by lia. reflexivity. }
  induction q as [q IH|q IH|]; intros m Hm; cbn [SpecFloat.iter_pos].
  - replace (m * 2 ^ Z.pos q~1) with (m * 2 ^ Z.pos q * 2 ^ Z.pos q * 2).
    2:{ replace (Z.pos q~1) with (Z.pos q + Z.pos q + 1) by lia.
        rewrite !Z.pow_add_r by lia. change (2 ^ 1) with 2. ring. }
    rewrite Hstep by (repeat apply Z.mul_nonneg_nonneg; lia).
    rewrite IH by (apply Z.mul_nonneg_nonneg; lia). now apply IH.
  - replace (m * 2 ^ Z.pos q~0) with (m * 2 ^ Z.pos q * 2 ^ Z.pos q).
    2:{ replace (Z.pos q~0) with (Z.pos q + Z.pos q) by lia.
        rewrite !Z.pow_add_r by lia. ring. }
    rewrite IH by (apply Z.mul_nonneg_nonneg; lia). now apply IH.
  - now apply Hstep.
Qed.

(** Shifting out zero bits is exact. *)
Lemma shr_exact (m e sh : Z) :
  0 ≤ m → 0 ≤ sh →
  shr (Build_shr_record (m * 2 ^ sh) false false) e sh
  = (Build_shr_record m false false, e + sh).
Proof.
  intros Hm Hsh. unfold shr.
  destruct sh as [|q|q]; [|now rewrite iter_shr_1_exact|lia].
  now rewrite Z.mul_1_r, Z.add_0_r.
Qed.

(** Rounding a number of the format written with [n] extra zero bits
    gives the number back. *)
Lemma binary_round_aux_exact (s : bool) (M q : positive) (e n : Z) :
  0 ≤ n → bounded 24 128 q (e + n) = true →
  Z.pos M = Z.pos q * 2 ^ n →
  binary_round_aux 24 128 s (Z.pos M) e loc_Exact = S754_finite s q (e + n).
Proof.
  intros Hn Hb HM. apply bounded_spec in Hb as [Hc He].
  set (d := Z.pos (digits2_pos q)) in *.
  assert (Hdig : Zdigits2 (Z.pos M) = d + n) by (rewrite HM; now apply digits2_shift).
  unfold binary_round_aux, shr_fexp. rewrite Hdig, fexp_eq.
  replace (Z.max (d + n + e - 24) (-149) - e) with n by lia.
  cbn [shr_record_of_loc]. rewrite HM, shr_exact by lia.
  cbn [shr_m loc_of_shr_record round_nearest_even Zdigits2]. fold d.
  rewrite fexp_eq.
  replace (Z.max (d + (e + n) - 24) (-149) - (e + n)) with 0 by lia.
  cbn [shr shr_m]. destruct (Z.leb_spec (e + n) (128 - 24)); [reflexivity|lia].
Qed.

Lemma iter_xO_shift (M k : positive) :
  Z.pos (Pos.iter xO M k) = Z.pos M * 2 ^ Z.pos k.
Proof.
  induction k as [|k IH] using Pos.peano_ind.
  - cbn. lia.
  - rewrite Pos.iter_succ, Pos2Z.inj_xO, IH, Pos2Z.inj_succ, Z.pow_succ_r by lia.
    ring.
Qed.

Lemma shl_align_spec (m : positive) (e e' : Z) :
  let '(m', e'') := shl_align m e e' in
  e'' = Z.min e e' ∧ Z.pos m' = Z.pos m * 2 ^ (e - e'').
Proof.
  unfold shl_align. destruct (e' - e) as [|k|k] eqn:Ek.
  - split; [lia|]. rewrite Z.sub_diag. lia.
  - split; [lia|]. rewrite Z.sub_diag. lia.
  - split; [lia|]. rewrite iter_xO_shift. do 2 f_equal. lia.
Qed.

Lemma binary_round_spec (s : bool) (m : positive) (e : Z) :
  -149 ≤ e →
  Z.pos m * 2 ^ (e + 149) ≤ 2 ^ 276 →
  ∃ m' e',
    binary_round 24 128 s m e = S754_finite s m' e'
    ∧ bounded 24 128 m' e' = true
    ∧ 2 ^ 24 * Z.abs (Z.pos m' * 2 ^ (e' + 149) - Z.pos m * 2 ^ (e + 149))
      ≤ Z.pos m * 2 ^ (e + 149).
Proof.
  intros He Hv. unfold binary_round. rewrite fexp_eq.
  set (d := Z.pos (digits2_pos m)).
  pose proof (shl_align_spec m e (Z.max (d + e - 24) (-149))) as Hsh.
  destruct (shl_align m e (Z.max (d + e - 24) (-149))) as [mz ez].
  destruct Hsh as [Hez Hmz].
  assert (Hval : Z.pos mz * 2 ^ (ez + 149) = Z.pos m * 2 ^ (e + 149)).
  { rewrite Hmz, <- Z.mul_assoc, <- pow2_add by lia. do 2 f_equal. lia. }
  rewrite <- Hval in *. apply binary_round_aux_spec; [lia| |exact Hv].
  assert (Hdig : Z.pos (digits2_pos mz) = d + (e - ez)).
  { change (Z.pos (digits2_pos mz)) with (Zdigits2 (Z.pos mz)).
    rewrite Hmz. apply digits2_shift. lia. }
  rewrite Hdig, fexp_eq. lia.
Qed.

Lemma binary_normalize_spec (M e : Z) :
  -149 ≤ e →
  Z.abs (M * 2 ^ (e + 149)) ≤ 2 ^ 276 →
  in_format (binary_normalize 24 128 M e false)
  ∧ 2 ^ 24 * Z.abs (units (binary_normalize 24 128 M e false) - M * 2 ^ (e + 149))
    ≤ Z.abs (M * 2 ^ (e + 149)).
Proof.
  intros He Hv. assert (HE : 0 < 2 ^ (e + 149)) by (apply pow2_pos; lia).
  destruct M as [|m|m]; cbn [binary_normalize].
  - cbn. lia.
  - destruct (binary_round_spec false m e He) as (m' & e' & -> & Hb & Herr); [lia|].
    split; [exact Hb|]. cbn [units cond_Zopp]. lia.
  - destruct (binary_round_spec true m e He) as (m' & e' & -> & Hb & Herr); [lia|].
    split; [exact Hb|]. cbn [units cond_Zopp].
    set (E := 2 ^ (e + 149)) in *. set (v := Z.pos m' * 2 ^ (e' + 149)) in *.
    lia.
Qed.

(** *** The operations on numbers of the format *)

Lemma in_format_exponent (s : bool) (m : positive) (e : Z) :
  in_format (S754_finite s m e) → -149 ≤ e ≤ 104.
Proof. cbn. rewrite bounded_spec. lia. Qed.

Lemma aligned_value (s : bool) (m : positive) (e e' : Z) :
  -149 ≤ e' → e' ≤ e →
  cond_Zopp s (Z.pos (fst (shl_align m e e'))) * 2 ^ (e' + 149)
  = units (S754_finite s m e).
Proof.
  intros He' Hle. pose proof (shl_align_spec m e e') as H.
  destruct (shl_align m e e') as [m' e'']. destruct H as [-> Hm].
  cbn [fst units]. rewrite Hm, Z.min_r by lia.
  assert (2 ^ (e - e') * 2 ^ (e' + 149) = 2 ^ (e + 149))
    by (rewrite <- pow2_add by lia; f_equal; lia).
  destruct s; cbn [cond_Zopp]; nia.
Qed.

(** Addition: a number of the format within a relative error of 2^-24 of
    the sum, where the sum cannot overflow. *)
Lemma add_spec (x y : float) :
  in_format x → in_format y → Z.abs (units x + units y) ≤ 2 ^ 276 →
  in_format (F32.add x y)
  ∧ 2 ^ 24 * Z.abs (units (F32.add x y) - (units x + units y)) ≤ Z.abs (units x + units y).
Proof.
  intros Hx Hy Hv. unfold F32.add.
  destruct x as [sx|sx| |sx mx ex], y as [sy|sy| |sy my ey]; try easy.
  - destruct sx, sy; cbn; lia.
  - cbn [SFadd]. split; [exact Hy|]. cbn [units] in *. lia.
  - cbn [SFadd]. split; [exact Hx|]. cbn [units] in *. lia.
  - pose proof (in_format_exponent _ _ _ Hx). pose proof (in_format_exponent _ _ _ Hy).
    cbn [SFadd]. cbv zeta.
    rewrite <- (aligned_value sx mx ex (Z.min ex ey)) in * by lia.
    rewrite <- (aligned_value sy my ey (Z.min ex ey)) in * by lia.
    rewrite <- Z.mul_add_distr_r in *.
    apply binary_normalize_spec; [lia|exact Hv].
Qed.

Lemma cond_Zopp_negb (s : bool) (v : Z) : cond_Zopp (negb s) v = - cond_Zopp s v.
Proof. destruct s; cbn; lia. Qed.

Lemma sub_spec (x y : float) :
  in_format x → in_format y → Z.abs (units x - units y) ≤ 2 ^ 276 →
  in_format (F32.sub x y)
  ∧ 2 ^ 24 * Z.abs (units (F32.sub x y) - (units x - units y)) ≤ Z.abs (units x - units y).
Proof.
  intros Hx Hy Hv. unfold F32.sub.
  destruct x as [sx|sx| |sx mx ex], y as [sy|sy| |sy my ey]; try easy.
  - destruct sx, sy; cbn; lia.
  - cbn [SFsub]. split; [exact Hy|]. cbn [units] in *.
    rewrite cond_Zopp_negb. lia.
  - cbn [SFsub]. split; [exact Hx|]. cbn [units] in *. lia.
  - pose proof (in_format_exponent _ _ _ Hx). pose proof (in_format_exponent _ _ _ Hy).
    cbn [SFsub]. cbv zeta.
    rewrite <- (aligned_value sx mx ex (Z.min ex ey)) in * by lia.
    rewrite <- (aligned_value sy my ey (Z.min ex ey)) in * by lia.
    rewrite <- Z.mul_sub_distr_r in *.
    apply binary_normalize_spec; [lia|exact Hv].
Qed.

(** Subtraction with a zero on either side is exact. *)
Lemma sub_zero_l (s : bool) (y : float) :
  in_format y → in_format (F32.sub (S754_zero s) y) ∧ units (F32.sub (S754_zero s) y) = - units y.
Proof.
  intros Hy. destruct y as [sy|sy| |sy my ey]; try easy.
  - destruct s, sy; cbn; easy.
  - split; [exact Hy|]. cbn [F32.sub SFsub units]. unfold F32.sub. cbn [SFsub units].
    apply cond_Zopp_negb.
Qed.

(** Multiplication by the weights 1 and -1 is exact. *)
Lemma mul_unit_spec (s1 : bool) (x : float) :
  in_format x →
  in_format (F32.mul (S754_finite s1 8388608 (-23)) x)
  ∧ units (F32.mul (S754_finite s1 8388608 (-23)) x) = cond_Zopp s1 (units x).
Proof.
  intros Hx. unfold F32.mul. destruct x as [s|s| |s m e]; try easy.
  - cbn. destruct s1; easy.
  - cbn [SFmul].
    rewrite (binary_round_aux_exact _ _ m (-23 + e) 23).
    + replace (-23 + e + 23) with e by lia. split; [exact Hx|].
      cbn [units]. destruct s1, s; cbn [xorb cond_Zopp]; lia.
    + lia.
    + replace (-23 + e + 23) with e by lia. exact Hx.
    + rewrite Pos2Z.inj_mul. change (2 ^ 23) with 8388608. lia.
Qed.

Lemma abs_spec (x : float) :
  in_format x → in_format (F32.abs x) ∧ units (F32.abs x) = Z.abs (units x).
Proof.
  intros Hx. destruct x as [s|s| |s m e]; try easy.
  split; [exact Hx|]. cbn [F32.abs SFabs units].
  assert (0 < 2 ^ (e + 149)) by (apply pow2_pos; pose proof (in_format_exponent _ _ _ Hx); lia).
  destruct s; cbn [cond_Zopp]; nia.
Qed.

(** ** Accumulated rounding error of running sums *)

Lemma approx_exact (x : float) : in_format x → approx 0 x (exact_of x).
Proof. intros Hx. unfold approx, exact_of; cbn [fst snd]. split; [exact Hx|]. lia. Qed.

Lemma approx_zero (c : Z) : approx c F32.zero (0, 0).
Proof. unfold approx; cbn. lia. Qed.

Lemma approx_weaken (c c' : Z) (a : float) (tb : Z * Z) :
  c ≤ c' → approx c a tb → approx c' a tb.
Proof.
  intros Hc (Hg & Ht & He). split; [exact Hg|]. split; [exact Ht|].
  etrans; [exact He|]. apply Z.mul_le_mono_nonneg_r; lia.
Qed.

Lemma approx_same_value (c : Z) (a a' : float) (tb : Z * Z) :
  in_format a' → units a' = units a → approx c a tb → approx c a' tb.
Proof. intros Hg Hv (_ & Ht & He). unfold approx. now rewrite Hv. Qed.

Lemma approx_magnitude (c : Z) (a : float) (tb : Z * Z) :
  0 ≤ c ≤ 2 ^ 24 → approx c a tb →
  Z.abs (units a - tb.1) ≤ tb.2 ∧ Z.abs (units a) ≤ 2 * tb.2.
Proof.
  intros Hc (_ & Ht & He).
  assert (c * tb.2 ≤ 2 ^ 24 * tb.2) by (apply Z.mul_le_mono_nonneg_r; lia).
  lia.
Qed.

Lemma add_rounds_sum : rounds_sum F32.add.
Proof. exact add_spec. Qed.

(** One step of the recurrence with the weights of the summed-area table
    is the rounded sum of the previous output and the input. *)
Lemma fwd_rounds_sum : rounds_sum (λ p x, Model.fwd w_sat [p] x).
Proof.
  intros p x Hp Hx Hv.
  change (Model.fwd w_sat [p] x)
    with (F32.sub (F32.mul (S754_finite false 8388608 (-23)) x)
                  (F32.mul (S754_finite true 8388608 (-23)) p)).
  destruct (mul_unit_spec false x Hx) as [Hg1 Hv1].
  destruct (mul_unit_spec true p Hp) as [Hg2 Hv2].
  cbn [cond_Zopp] in Hv1, Hv2.
  destruct (sub_spec _ _ Hg1 Hg2) as [Hg He].
  - rewrite Hv1, Hv2. now replace (units x - - units p) with (units p + units x) by lia.
  - split; [exact Hg|]. rewrite Hv1, Hv2 in He.
    now replace (units x - - units p) with (units p + units x) in He by lia.
Qed.

(** With a zero input the step returns the previous output. *)
Lemma fwd_zero (p : float) :
  in_format p →
  in_format (Model.fwd w_sat [p] F32.zero) ∧ units (Model.fwd w_sat [p] F32.zero) = units p.
Proof.
  intros Hp.
  change (Model.fwd w_sat [p] F32.zero)
    with (F32.sub (S754_zero false) (F32.mul (S754_finite true 8388608 (-23)) p)).
  destruct (mul_unit_spec true p Hp) as [Hg2 Hv2]. cbn [cond_Zopp] in Hv2.
  destruct (sub_zero_l false _ Hg2) as [Hg He]. split; [exact Hg|]. lia.
Qed.

Lemma sum_approx (op : float → float → float) (c : Z) (p x : float)
    (tb ub : Z * Z) :
  rounds_sum op → 0 ≤ c ≤ 2 ^ 24 → tb.2 + ub.2 ≤ 2 ^ 275 →
  approx c p tb → approx c x ub → approx (c + 2) (op p x) (padd tb ub).
Proof.
  intros Hop Hc HB Hp Hx.
  destruct (approx_magnitude _ _ _ Hc Hp) as [Hp1 Hp2].
  destruct (approx_magnitude _ _ _ Hc Hx) as [Hx1 Hx2].
  destruct Hp as (Hgp & Htp & Hep), Hx as (Hgx & Htx & Hex).
  destruct (Hop p x Hgp Hgx) as [Hg He]; [lia|].
  unfold approx, padd; cbn [fst snd]. split; [exact Hg|]. split; [lia|].
  replace ((c + 2) * (tb.2 + ub.2))
    with (c * tb.2 + c * ub.2 + 2 * (tb.2 + ub.2)) by ring.
  lia.
Qed.

Lemma padd_zero_l (a : Z * Z) : padd (0, 0) a = a.
Proof. destruct a. reflexivity. Qed.

Lemma padd_comm (a b : Z * Z) : padd a b = padd b a.
Proof. unfold padd. f_equal; lia. Qed.

Lemma padd_assoc (a b c : Z * Z) : padd (padd a b) c = padd a (padd b c).
Proof. unfold padd; cbn [fst snd]. f_equal; lia. Qed.

Lemma bsum_nonneg l : 0 ≤ bsum l.
Proof. induction l; cbn [bsum]; lia. Qed.

Lemma bsum_app l1 l2 : bsum (l1 ++ l2) = bsum l1 + bsum l2.
Proof. induction l1; cbn [bsum app]; lia. Qed.

Lemma bsum_take n l : bsum (take n l) ≤ bsum l.
Proof.
  rewrite <- (take_drop n l) at 2. rewrite bsum_app.
  pose proof (bsum_nonneg (drop n l)). lia.
Qed.

Lemma bsum_drop n l : bsum (drop n l) ≤ bsum l.
Proof.
  rewrite <- (take_drop n l) at 2. rewrite bsum_app.
  pose proof (bsum_nonneg (take n l)). lia.
Qed.

Lemma psum_bsum l : Z.abs (psum l).2 ≤ bsum l.
Proof. induction l; cbn [psum bsum padd snd]; lia. Qed.

Lemma pscan_app p l1 l2 :
  pscan p (l1 ++ l2) = pscan p l1 ++ pscan (padd p (psum l1)) l2.
Proof.
  revert p. induction l1 as [|x l1 IH]; intros p; cbn [pscan psum app].
  - destruct p. unfold padd; cbn. do 2 f_equal; lia.
  - now rewrite IH, padd_assoc.
Qed.

Lemma pscan_shift a p l : pscan (padd p a) l = (λ s, padd s a) <$> pscan p l.
Proof.
  revert p. induction l as [|x l IH]; intros p; cbn [pscan fmap list_fmap]; [reflexivity|].
  assert (E : padd (padd p a) x = padd (padd p x) a)
    by (unfold padd; cbn [fst snd]; f_equal; lia).
  now rewrite E, IH.
Qed.

Lemma length_pscan p l : length (pscan p l) = length l.
Proof. revert p. induction l; intros p; cbn; [reflexivity | now f_equal]. Qed.

(** Every running sum carries a magnitude bounded by the start and the
    magnitudes of the line. *)
Lemma pscan_bound p l :
  Forall (λ s : Z * Z, Z.abs s.2 ≤ Z.abs p.2 + bsum l) (pscan p l).
Proof.
  revert p. induction l as [|x l IH]; intros p; cbn [pscan bsum]; constructor.
  - pose proof (bsum_nonneg l). unfold padd; cbn [snd]. lia.
  - eapply Forall_impl; [apply IH|]. intros s. unfold padd; cbn [snd]. lia.
Qed.

(** *** The sequential recurrence *)

Lemma rec_filter_approx (xs : list float) :
  ∀ (tbs : list (Z * Z)) (c : Z) (p : float) (tb : Z * Z),
    Forall2 (approx c) xs tbs → approx c p tb →
    0 ≤ c → c + 2 * Z.of_nat (length xs) ≤ 2 ^ 24 →
    tb.2 + bsum tbs ≤ 2 ^ 275 →
    Forall2 (approx (c + 2 * Z.of_nat (length xs)))
            (Model.rec_filter w_sat [p] xs) (pscan tb tbs)
    ∧ ∃ q, Model.rec_state w_sat [p] xs = [q]
           ∧ approx (c + 2 * Z.of_nat (length xs)) q (padd tb (psum tbs)).
Proof.
  induction xs as [|x xs IH]; intros tbs c p tb Hxs Hp Hc Hlen HB.
  - apply Forall2_nil_inv_l in Hxs as ->. split; [constructor|].
    exists p. split; [reflexivity|].
    cbn [psum length]. replace (padd tb (0, 0)) with tb by (destruct tb; unfold padd; cbn; f_equal; lia).
    eapply approx_weaken; [|exact Hp]. lia.
  - apply Forall2_cons_inv_l in Hxs as (ub & tbs' & Hx & Hxs & ->).
    cbn [length] in *. cbn [bsum] in HB.
    pose proof (bsum_nonneg tbs').
    assert (Hub : Z.abs ub.1 ≤ ub.2) by apply Hx.
    assert (Htb : Z.abs tb.1 ≤ tb.2) by apply Hp.
    assert (Hy : approx (c + 2) (Model.fwd w_sat [p] x) (padd tb ub)).
    { apply (sum_approx (λ p x, Model.fwd w_sat [p] x)); try assumption.
      - exact fwd_rounds_sum.
      - lia.
      - lia. }
    cbn [Model.rec_filter Model.rec_state pscan psum].
    change (Model.shift (Model.fwd w_sat [p] x) [p]) with [Model.fwd w_sat [p] x].
    destruct (IH tbs' (c + 2) (Model.fwd w_sat [p] x) (padd tb ub)) as [Hys Hq].
    + eapply Forall2_impl; [exact Hxs|]. intros a s. apply approx_weaken. lia.
    + exact Hy.
    + lia.
    + lia.
    + unfold padd; cbn [snd]. lia.
    + replace (c + 2 + 2 * Z.of_nat (length xs))
        with (c + 2 * Z.of_nat (S (length xs))) in * by lia.
      split.
      * constructor; [|exact Hys]. eapply approx_weaken; [|exact Hy]. lia.
      * destruct Hq as (q & Hst & Hq). exists q. split; [exact Hst|].
        now rewrite <- padd_assoc.
Qed.

(** *** The transfer of a carry *)

Lemma transfer_spec (n : nat) :
  ∀ c : float, in_format c →
    Forall (λ q, in_format q ∧ units q = units c) (Model.transfer w_sat [c] n)
    ∧ length (Model.transfer w_sat [c] n) = n
    ∧ ∃ q, Model.transfer_carry w_sat [c] n = [q] ∧ in_format q ∧ units q = units c.
Proof.
  unfold Model.transfer, Model.transfer_carry.
  induction n as [|n IH]; intros c Hc.
  - split; [constructor|]. split; [reflexivity|]. now exists c.
  - cbn [replicate Model.rec_filter Model.rec_state].
    change (Model.shift (Model.fwd w_sat [c] F32.zero) [c])
      with [Model.fwd w_sat [c] F32.zero].
    destruct (fwd_zero c Hc) as [Hg Hv].
    destruct (IH _ Hg) as (Hall & Hlen & q & Hq & Hgq & Hvq).
    split; [|split].
    + constructor; [now split|]. eapply Forall_impl; [exact Hall|].
      intros a [? ?]. split; [easy|lia].
    + cbn [length]. now f_equal.
    + exists q. split; [exact Hq|]. split; [exact Hgq|lia].
Qed.

(** *** The tiled pass *)

Lemma add_carry_approx (k : Z) (tbc : Z * Z) (ls : list float) :
  ∀ (ss : list (Z * Z)) (tr : list float),
    Forall2 (approx k) ls ss → Forall (λ q, approx k q tbc) tr →
    length tr = length ls → 0 ≤ k ≤ 2 ^ 24 →
    Forall (λ s : Z * Z, s.2 + tbc.2 ≤ 2 ^ 275) ss →
    Forall2 (approx (k + 2)) (zip_with F32.add ls tr) ((λ s, padd s tbc) <$> ss).
Proof.
  induction ls as [|a ls IH]; intros ss tr Hls Htr Hlen Hk HB.
  - apply Forall2_nil_inv_l in Hls as ->. constructor.
  - apply Forall2_cons_inv_l in Hls as (s & ss' & Ha & Hls & ->).
    destruct tr as [|q tr]; [discriminate|].
    apply Forall_cons in Htr as [Hq Htr]. apply Forall_cons in HB as [HB1 HB].
    cbn [zip_with fmap list_fmap]. constructor.
    + apply (sum_approx F32.add); try assumption. exact add_rounds_sum.
    + apply IH; try assumption. cbn in Hlen. lia.
Qed.

Lemma local_approx (c0 : Z) (tile : list float) (tbs : list (Z * Z)) :
  Forall2 (approx c0) tile tbs →
  0 ≤ c0 → c0 + 2 * Z.of_nat (length tile) ≤ 2 ^ 24 → bsum tbs ≤ 2 ^ 275 →
  Forall2 (approx (c0 + 2 * Z.of_nat (length tile)))
          (Model.local_filter w_sat tile) (pscan (0, 0) tbs)
  ∧ ∃ q, Model.local_carry w_sat tile = [q]
         ∧ approx (c0 + 2 * Z.of_nat (length tile)) q (psum tbs).
Proof.
  intros Htile Hc Hlen HB. unfold Model.local_filter, Model.local_carry.
  change (Model.zero_state w_sat) with [F32.zero].
  rewrite <- (padd_zero_l (psum tbs)).
  apply rec_filter_approx; try assumption; [apply approx_zero|..]; cbn; lia.
Qed.

(** The fix-up of a tile: the running sums of the line from the carry. *)
Lemma fixup_approx (c0 ck : Z) (tile : list float) (tbs : list (Z * Z))
    (cf : float) (tbc : Z * Z) :
  Forall2 (approx c0) tile tbs → approx ck cf tbc →
  0 ≤ c0 → c0 + 2 * Z.of_nat (length tile) ≤ ck → ck ≤ 2 ^ 24 →
  tbc.2 + bsum tbs ≤ 2 ^ 275 →
  Forall2 (approx (ck + 2)) (Model.fixup w_sat tile [cf]) (pscan tbc tbs)
  ∧ ∃ q, zip_with F32.add (Model.local_carry w_sat tile)
                  (Model.transfer_carry w_sat [cf] (length tile)) = [q]
         ∧ approx (ck + 2) q (padd tbc (psum tbs)).
Proof.
  intros Htile Hcf Hc0 Hck Hck' HB.
  assert (Htbc : 0 ≤ tbc.2) by (destruct Hcf as (_ & ? & _); lia).
  pose proof (bsum_nonneg tbs) as Hbs.
  destruct (local_approx c0 tile tbs Htile Hc0) as [Hloc (lq & Hlq & Hlqa)];
    [lia|lia|].
  destruct (transfer_spec (length tile) cf) as (Htr & Htrlen & q & Hq & Hgq & Hvq);
    [apply Hcf|].
  split.
  - unfold Model.fixup. rewrite <- (padd_zero_l tbc), pscan_shift.
    apply add_carry_approx.
    + eapply Forall2_impl; [exact Hloc|]. intros a s. now apply approx_weaken.
    + eapply Forall_impl; [exact Htr|]. intros a [Hga Hva].
      now apply (approx_same_value ck cf).
    + rewrite Htrlen. unfold Model.local_filter.
      clear. generalize (Model.zero_state w_sat).
      induction tile as [|x tile IH]; intros st; cbn; [reflexivity|].
      now rewrite <- IH.
    + lia.
    + eapply Forall_impl; [apply pscan_bound|]. intros s. cbn [snd]. lia.
  - rewrite Hlq, Hq. cbn [zip_with]. eexists. split; [reflexivity|].
    rewrite padd_comm. apply (sum_approx F32.add).
    + exact add_rounds_sum.
    + lia.
    + pose proof (psum_bsum tbs). lia.
    + eapply approx_weaken; [|exact Hlqa]. lia.
    + now apply (approx_same_value ck cf).
Qed.

(** Local filter, carry propagation and fix-up over a decomposition of a
    line into tiles: the running sums of the line, with two more roundings
    for every tile. *)
Lemma tiles_approx (c0 : Z) (T : nat) (ts : list (list float)) :
  ∀ (tbss : list (list (Z * Z))) (ck : Z) (cf : float) (tbc : Z * Z),
    Forall2 (Forall2 (approx c0)) ts tbss →
    Forall (λ t, (length t ≤ T)%nat) ts →
    approx ck cf tbc →
    0 ≤ c0 → c0 + 2 * Z.of_nat T ≤ ck →
    ck + 2 * Z.of_nat (length ts) ≤ 2 ^ 24 →
    tbc.2 + bsum (concat tbss) ≤ 2 ^ 275 →
    Forall2 (approx (ck + 2 * Z.of_nat (length ts)))
            (concat (zip_with (Model.fixup w_sat) ts (Model.carries w_sat [cf] ts)))
            (pscan tbc (concat tbss)).
Proof.
  induction ts as [|t ts IH]; intros tbss ck cf tbc Hts Hlen Hcf Hc0 Hck Hmax HB.
  - apply Forall2_nil_inv_l in Hts as ->. constructor.
  - apply Forall2_cons_inv_l in Hts as (tbs & tbss' & Ht & Hts & ->).
    apply Forall_cons in Hlen as [Hlt Hlen].
    cbn [concat] in *. rewrite bsum_app in HB. cbn [length] in *.
    pose proof (bsum_nonneg tbs). pose proof (bsum_nonneg (concat tbss')).
    assert (Htbc : 0 ≤ tbc.2) by (destruct Hcf as (_ & ? & _); lia).
    destruct (fixup_approx c0 ck t tbs cf tbc Ht Hcf Hc0) as [Hfix (q & Hq & Hqa)];
      [lia|lia|lia|].
    cbn [Model.carries zip_with concat]. rewrite Hq, pscan_app.
    apply Forall2_app.
    + eapply Forall2_impl; [exact Hfix|]. intros a s. apply approx_weaken. lia.
    + replace (ck + 2 * Z.of_nat (S (length ts)))
        with (ck + 2 + 2 * Z.of_nat (length ts)) by lia.
      apply IH; try assumption; [lia|lia|].
      pose proof (psum_bsum tbs). unfold padd; cbn [snd]. lia.
Qed.

(** *** Decomposition into segments *)

Lemma concat_segments {A : Type} (T n : nat) :
  ∀ l : list A, (length l ≤ n * T)%nat → concat (segments T n l) = l.
Proof.
  unfold segments. induction n as [|n IH]; intros l Hl.
  - destruct l; [reflexivity | cbn in Hl; lia].
  - cbn [seq fmap list_fmap concat]. rewrite <- fmap_S_seq, <- list_fmap_compose.
    transitivity (take T l ++ drop T l); [|apply take_drop].
    f_equal.
    rewrite <- (IH (drop T l)) by (rewrite length_drop; lia).
    f_equal. apply list_fmap_ext. intros _ k _. cbn.
    now rewrite drop_drop.
Qed.

Lemma segments_Forall2 {A B : Type} (R : A → B → Prop) (T n : nat)
    (l : list A) (l' : list B) :
  Forall2 R l l' → Forall2 (Forall2 R) (segments T n l) (segments T n l').
Proof.
  intros H. unfold segments. apply Forall2_fmap, Forall_Forall2_diag, Forall_forall.
  intros k _. now apply Forall2_take, Forall2_drop.
Qed.

Lemma segments_length {A : Type} (T n : nat) (l : list A) :
  length (segments T n l) = n ∧ Forall (λ t, (length t ≤ T)%nat) (segments T n l).
Proof.
  unfold segments. split; [now rewrite length_fmap, length_seq|].
  apply Forall_fmap, Forall_forall. intros k _. cbn. rewrite length_take. lia.
Qed.

(** The tiled pass over a line: the running sums, within
    [2 * (T + length)] more roundings than the samples. *)
Lemma tiled_pass_approx (T : nat) (c0 : Z) (line : list float)
    (tbs : list (Z * Z)) :
  (0 < T)%nat → Forall2 (approx c0) line tbs →
  0 ≤ c0 → c0 + 2 * Z.of_nat T + 2 * Z.of_nat (length line) ≤ 2 ^ 24 →
  bsum tbs ≤ 2 ^ 275 →
  Forall2 (approx (c0 + 2 * Z.of_nat T + 2 * Z.of_nat (length line)))
          (Model.tiled_pass T w_sat line) (pscan (0, 0) tbs).
Proof.
  intros HT Hline Hc0 Hmax HB. unfold Model.tiled_pass.
  set (n := ((length line + T - 1) / T)%nat).
  change (Model.tiles_of T line) with (segments T n line).
  change (Model.zero_state w_sat) with [F32.zero].
  assert (Hn : (length line ≤ n * T)%nat ∧ (n ≤ length line)%nat).
  { unfold n. pose proof (Nat.div_mod_eq (length line + T - 1) T).
    pose proof (Nat.mod_upper_bound (length line + T - 1) T).
    split; [lia|]. destruct (length line) as [|k].
    - rewrite Nat.div_small; lia.
    - apply Nat.Div0.div_le_upper_bound. nia. }
  assert (Hcat : concat (segments T n tbs) = tbs).
  { apply concat_segments. rewrite <- (Forall2_length _ _ _ Hline). lia. }
  destruct (segments_length T n line) as [Hlen Hlens].
  rewrite <- Hcat at 1.
  eapply Forall2_impl.
  - apply (tiles_approx c0 T _ _ (c0 + 2 * Z.of_nat T)).
    + now apply segments_Forall2.
    + exact Hlens.
    + apply approx_zero.
    + exact Hc0.
    + lia.
    + rewrite Hlen. lia.
    + rewrite Hcat. cbn. lia.
  - intros a s. apply approx_weaken. rewrite Hlen. lia.
Qed.

(** The sequential pass over a line, within the same bound. *)
Lemma sequential_pass_approx (T : nat) (c0 : Z) (line : list float)
    (tbs : list (Z * Z)) :
  Forall2 (approx c0) line tbs →
  0 ≤ c0 → c0 + 2 * Z.of_nat T + 2 * Z.of_nat (length line) ≤ 2 ^ 24 →
  bsum tbs ≤ 2 ^ 275 →
  Forall2 (approx (c0 + 2 * Z.of_nat T + 2 * Z.of_nat (length line)))
          (Model.rec_filter w_sat (Model.zero_state w_sat) line)
          (pscan (0, 0) tbs).
Proof.
  intros Hline Hc0 Hmax HB.
  change (Model.zero_state w_sat) with [F32.zero].
  eapply Forall2_impl.
  - apply (rec_filter_approx line tbs c0); try assumption;
      [apply approx_zero|..]; cbn; lia.
  - intros a s. apply approx_weaken. lia.
Qed.

(** *** The two passes over an image *)

Lemma tiled_pass_ok : line_pass_ok (Model.tiled_pass Model.TILE w_sat).
Proof.
  intros c0 line tbs H Hc Hmax HB.
  apply (tiled_pass_approx Model.TILE c0 line tbs); try assumption.
  unfold Model.TILE. lia.
Qed.

Lemma sequential_pass_ok :
  line_pass_ok (Model.rec_filter w_sat (Model.zero_state w_sat)).
Proof.
  intros c0 line tbs H Hc Hmax HB.
  now apply (sequential_pass_approx 32 c0 line tbs).
Qed.

Lemma columns_Forall2 {A B : Type} (R : A → B → Prop) (d : A) (d' : B)
    (width : nat) (rows : list (list A)) (rows' : list (list B)) :
  R d d' → Forall2 (Forall2 R) rows rows' →
  Forall2 (Forall2 R) (columns d width rows) (columns d' width rows').
Proof.
  intros Hd Hrows. unfold columns.
  apply Forall2_fmap, Forall_Forall2_diag, Forall_forall. intros c _.
  apply Forall2_fmap. eapply Forall2_impl; [exact Hrows|].
  intros row row' Hrow. cbn.
  pose proof (proj1 (Forall2_lookup _ _ _) Hrow c) as Hc.
  destruct Hc; [assumption|exact Hd].
Qed.

Lemma columns_Forall {A : Type} (P : A → Prop) (d : A) (width : nat)
    (rows : list (list A)) :
  P d → Forall (Forall P) rows → Forall (Forall P) (columns d width rows).
Proof.
  intros Hd Hrows. unfold columns. apply Forall_fmap, Forall_forall.
  intros c _. cbn. apply Forall_fmap. eapply Forall_impl; [exact Hrows|].
  intros row Hrow. cbn. destruct (row !! c) as [a|] eqn:E; [|exact Hd].
  cbn. eapply Forall_lookup_1; eassumption.
Qed.

Lemma Forall2_concat {A B : Type} (R : A → B → Prop) (ls : list (list A))
    (ks : list (list B)) :
  Forall2 (Forall2 R) ls ks → Forall2 R (concat ls) (concat ks).
Proof. induction 1; cbn [concat]; [constructor | now apply Forall2_app]. Qed.

Lemma columns_length {A : Type} (d : A) (width : nat) (rows : list (list A)) :
  Forall (λ col, length col = length rows) (columns d width rows).
Proof.
  unfold columns. apply Forall_fmap, Forall_forall. intros c _. cbn.
  now rewrite length_fmap.
Qed.

Lemma pass_lines_approx (pass : list float → list float) (c0 : Z) (n : nat)
    (ls : list (list float)) :
  line_pass_ok pass →
  ∀ ss : list (list (Z * Z)),
    Forall2 (Forall2 (approx c0)) ls ss →
    Forall (λ l, (length l ≤ n)%nat) ls →
    Forall (λ s, bsum s ≤ 2 ^ 275) ss →
    0 ≤ c0 → c0 + 64 + 2 * Z.of_nat n ≤ 2 ^ 24 →
    Forall2 (Forall2 (approx (c0 + 64 + 2 * Z.of_nat n)))
            (pass <$> ls) (pscan (0, 0) <$> ss).
Proof.
  intros Hpass. induction ls as [|l ls IH]; intros ss Hls Hlen HB Hc Hmax.
  - apply Forall2_nil_inv_l in Hls as ->. constructor.
  - apply Forall2_cons_inv_l in Hls as (s & ss' & Hl & Hls & ->).
    apply Forall_cons in Hlen as [Hlen1 Hlen]. apply Forall_cons in HB as [HB1 HB].
    cbn [fmap list_fmap]. constructor; [|now apply IH].
    eapply Forall2_impl; [apply (Hpass c0 l s); try assumption; lia|].
    intros a tb. apply approx_weaken. lia.
Qed.

(** The magnitudes in the segments of a list add up to at most those of
    the list. *)
Lemma bsum_segments (T n : nat) :
  ∀ l : list (Z * Z), bsum (concat (segments T n l)) ≤ bsum l.
Proof.
  unfold segments. induction n as [|n IH]; intros l; [cbn; apply bsum_nonneg|].
  cbn [seq fmap list_fmap concat]. rewrite <- fmap_S_seq, <- list_fmap_compose.
  rewrite bsum_app.
  assert (Hl : bsum l = bsum (take T l) + bsum (drop T l))
    by now rewrite <- bsum_app, take_drop.
  rewrite Hl. rewrite Nat.mul_0_l, drop_0.
  apply Z.add_le_mono; [reflexivity|].
  etrans; [|apply (IH (drop T l))].
  apply Z.eq_le_incl. do 2 f_equal. apply list_fmap_ext. intros _ k _. cbn.
  now rewrite drop_drop.
Qed.

Lemma bsum_segment (T n : nat) (l : list (Z * Z)) :
  Forall (λ s, bsum s ≤ bsum l) (segments T n l).
Proof.
  unfold segments. apply Forall_fmap, Forall_forall. intros k _. cbn.
  pose proof (bsum_take T (drop (k * T) l)). pose proof (bsum_drop (k * T) l). lia.
Qed.

(** The magnitudes at one coordinate of the running sums of each line add
    up to at most those of the lines. *)
Lemma bsum_column (c : nat) (rows : list (list (Z * Z))) :
  bsum ((λ row : list (Z * Z), default (0, 0) (row !! c)) <$> (pscan (0, 0) <$> rows))
  ≤ bsum (concat rows).
Proof.
  induction rows as [|row rows IH]; [reflexivity|].
  cbn [fmap list_fmap bsum concat]. rewrite bsum_app.
  apply Z.add_le_mono; [|exact IH].
  destruct (pscan (0, 0) row !! c) as [y|] eqn:Ey.
  - pose proof (Forall_lookup_1 _ _ _ _ (pscan_bound (0, 0) row) Ey) as Hy.
    cbn in Hy. exact Hy.
  - apply bsum_nonneg.
Qed.

Lemma bsum_columns (width : nat) (rows : list (list (Z * Z))) :
  Forall (λ s, bsum s ≤ bsum (concat rows))
         (columns (0, 0) width (pscan (0, 0) <$> rows)).
Proof.
  unfold columns. apply Forall_fmap, Forall_forall. intros c _.
  apply bsum_column.
Qed.

(** Any two-pass engine whose line pass is as above computes the
    summed-area table within [2 * (2 * TILE + width + height)] roundings. *)
Lemma two_passes_approx (pass : list float → list float) (width height : nat)
    (img : image) (sh : list (Z * Z)) :
  line_pass_ok pass → Forall2 (approx 0) img sh →
  128 + 2 * Z.of_nat width + 2 * Z.of_nat height ≤ 2 ^ 24 →
  bsum sh ≤ 2 ^ 275 →
  Forall2 (approx (128 + 2 * Z.of_nat width + 2 * Z.of_nat height))
          (Model.two_passes pass width height img) (psat width height sh).
Proof.
  intros Hpass Himg Hmax HB. unfold Model.two_passes, psat.
  change (Model.rows_of width height img) with (segments width height img).
  change Model.transpose with (columns F32.zero).
  set (srows := segments width height sh).
  assert (Hrows : Forall2 (Forall2 (approx (0 + 64 + 2 * Z.of_nat width)))
                    (pass <$> segments width height img) (pscan (0, 0) <$> srows)).
  { apply pass_lines_approx; try assumption; try lia.
    - now apply segments_Forall2.
    - apply segments_length.
    - eapply Forall_impl; [apply bsum_segment|]. intros s. cbn. lia. }
  set (rows := pass <$> segments width height img) in *.
  assert (Hcols : Forall2 (Forall2 (approx (0 + 64 + 2 * Z.of_nat width + 64
                                            + 2 * Z.of_nat height)))
                    (pass <$> columns F32.zero width rows)
                    (pscan (0, 0) <$> columns (0, 0) width (pscan (0, 0) <$> srows))).
  { apply pass_lines_approx; try assumption; try lia.
    - apply columns_Forall2; [apply approx_zero|exact Hrows].
    - eapply Forall_impl; [apply columns_length|]. intros col Hcol. cbn in Hcol.
      rewrite Hcol. unfold rows. rewrite length_fmap.
      destruct (segments_length width height img) as [-> _]. lia.
    - eapply Forall_impl; [apply bsum_columns|]. intros s Hs. cbn in Hs.
      pose proof (bsum_segments width height sh). fold srows in H. lia. }
  apply Forall2_concat. eapply Forall2_impl.
  - apply columns_Forall2; [apply approx_zero|exact Hcols].
  - intros l s Hl. eapply Forall2_impl; [exact Hl|].
    intros a tb. apply approx_weaken. lia.
Qed.

(** No sample of the table stands for more than the magnitudes of the
    whole image. *)
Lemma psat_bound (width height : nat) (sh : list (Z * Z)) :
  Forall (λ s : Z * Z, Z.abs s.2 ≤ bsum sh) (psat width height sh).
Proof.
  unfold psat. apply Forall_concat.
  apply columns_Forall; [cbn; apply bsum_nonneg|].
  apply Forall_fmap.
  eapply Forall_impl; [apply bsum_columns|]. intros col Hcol. cbn in *.
  pose proof (bsum_segments width height sh).
  eapply Forall_impl; [apply pscan_bound|]. intros s. cbn. lia.
Qed.

(** *** Shape of the images *)

Lemma bind_concat {A B : Type} (f : A → list B) (l : list A) :
  l ≫= f = concat (f <$> l).
Proof. induction l as [|a l IH]; [reflexivity|]. cbn. now f_equal. Qed.

Lemma lookups_take_drop {A : Type} (d : A) (l : list A) (k n : nat) :
  (k + n ≤ length l)%nat →
  (λ c, default d (l !! (k + c)%nat)) <$> seq 0 n = take n (drop k l).
Proof.
  intros Hlen. apply list_eq. intros i.
  rewrite list_lookup_fmap.
  destruct (decide (i < n)%nat) as [Hi|Hi].
  - rewrite lookup_seq_lt by exact Hi. rewrite lookup_take_lt, lookup_drop by exact Hi.
    cbn. destruct (lookup_lt_is_Some_2 l (k + i)) as [a Ha]; [lia|].
    now rewrite Ha.
  - rewrite lookup_seq_ge by lia. rewrite lookup_take_ge by lia. reflexivity.
Qed.

(** Without padding the extended image is the image. *)
Lemma extend_no_pad (bt : BorderType) (img : image) (width height : Z) :
  0 ≤ width → 0 ≤ height → Z.of_nat (length img) = width * height →
  Model.extend bt 0 img width height = img.
Proof.
  intros Hw Hh Hlen. unfold Model.extend. rewrite bind_concat.
  replace (- 0) with 0 by lia.
  replace (width + 2 * 0) with width by lia.
  replace (height + 2 * 0) with height by lia.
  transitivity (concat (segments (Z.to_nat width) (Z.to_nat height) img));
    [|apply concat_segments; nia].
  f_equal. unfold segments, seqZ. rewrite <- list_fmap_compose.
  apply list_fmap_ext. intros i r Hr. cbn.
  apply lookup_seq in Hr as [-> Hr]. cbn [Nat.add].
  rewrite <- list_fmap_compose.
  rewrite <- lookups_take_drop with (d := F32.zero) by nia.
  apply list_fmap_ext. intros j c Hc. cbn.
  apply lookup_seq in Hc as [-> Hc]. cbn [Nat.add].
  unfold Model.border_sample2, Model.border_coord.
  replace ((0 <=? Z.of_nat i + 0) && (Z.of_nat i + 0 <? height)) with true
    by (symmetry; apply andb_true_iff; split; [apply Z.leb_le|apply Z.ltb_lt]; lia).
  replace ((0 <=? Z.of_nat j + 0) && (Z.of_nat j + 0 <? width)) with true
    by (symmetry; apply andb_true_iff; split; [apply Z.leb_le|apply Z.ltb_lt]; lia).
  unfold Model.pixel.
  destruct (Z.ltb_spec ((Z.of_nat i + 0) * width + (Z.of_nat j + 0)) 0); [nia|].
  do 2 f_equal. nia.
Qed.

Lemma length_concat_uniform {A : Type} (n : nat) (ls : list (list A)) :
  Forall (λ l, length l = n) ls → length (concat ls) = (length ls * n)%nat.
Proof.
  induction 1 as [|l ls Hl _ IH]; [reflexivity|].
  cbn [concat length]. rewrite length_app, IH, Hl. lia.
Qed.

Lemma length_two_passes (pass : list float → list float) (width height : nat)
    (img : image) :
  length (Model.two_passes pass width height img) = (height * width)%nat.
Proof.
  unfold Model.two_passes. change Model.transpose with (columns F32.zero).
  rewrite (length_concat_uniform width).
  - unfold columns. now rewrite length_fmap, length_seq.
  - eapply Forall_impl; [apply columns_length|]. intros col ->.
    unfold columns. now rewrite !length_fmap, length_seq.
Qed.

(** Without padding nothing is cropped. *)
Lemma crop_no_pad (width height : nat) (out : image) :
  length out = (height * width)%nat → Model.crop 0 width height out = out.
Proof.
  intros Hlen. unfold Model.crop. cbn [Nat.mul]. rewrite !Nat.add_0_r, drop_0.
  change (Model.rows_of width height out) with (segments width height out).
  destruct (segments_length width height out) as [Hn Hlens].
  rewrite take_ge by lia.
  transitivity (concat (segments width height out));
    [|apply concat_segments; lia].
  f_equal. transitivity (id <$> segments width height out); [|apply list_fmap_id].
  apply Forall_fmap_ext_1. eapply Forall_impl; [exact Hlens|].
  intros row Hrow. cbn in *. rewrite drop_0. now apply take_ge.
Qed.

(** *** The error the checker reports *)

Lemma pixel_errors_bound (C Btot : Z) (cpu : image) :
  ∀ (gpu : image) (ps : list (Z * Z)),
    Forall2 (approx C) cpu ps → Forall2 (approx C) gpu ps →
    Forall (λ s : Z * Z, Z.abs s.2 ≤ Btot) ps →
    0 ≤ C ≤ 2 ^ 24 → Btot ≤ 2 ^ 275 →
    Forall (λ e, in_format e ∧ 2 ^ 24 * units e ≤ (2 * C + 2) * Btot)
           (pixel_abs_errors cpu gpu).
Proof.
  induction cpu as [|c cpu IH]; intros gpu ps Hcpu Hgpu Hps HC HB.
  - constructor.
  - apply Forall2_cons_inv_l in Hcpu as (s & ps' & Hc & Hcpu & ->).
    apply Forall2_cons_inv_r in Hgpu as (g & gpu' & Hg & Hgpu & ->).
    apply Forall_cons in Hps as [Hs Hps].
    unfold pixel_abs_errors. cbn [zip zip_with fmap list_fmap fst snd].
    constructor; [|now apply (IH gpu' ps')].
    destruct (approx_magnitude _ _ _ HC Hc) as [Hc1 _].
    destruct (approx_magnitude _ _ _ HC Hg) as [Hg1 _].
    destruct Hc as (Hgc & Hts & Hec), Hg as (Hgg & _ & Heg).
    destruct (sub_spec g c Hgg Hgc) as [Hgd Hed]; [lia|].
    destruct (abs_spec _ Hgd) as [Hga Hva].
    change (SFabs (SFsub 24 128 g c)) with (F32.abs (F32.sub g c)).
    split; [exact Hga|]. rewrite Hva.
    assert (Hmono : (2 * C + 2) * s.2 ≤ (2 * C + 2) * Btot)
      by (apply Z.mul_le_mono_nonneg_l; lia).
    replace ((2 * C + 2) * s.2) with (C * s.2 + C * s.2 + 2 * s.2) in Hmono by ring.
    lia.
Qed.

Lemma bsum_exact_of (M : Z) (img : image) :
  Forall (λ x, Z.abs (units x) ≤ M) img →
  bsum (exact_of <$> img) ≤ Z.of_nat (length img) * M.
Proof.
  induction 1 as [|x img Hx _ IH]; [reflexivity|].
  cbn [fmap list_fmap bsum length exact_of snd]. lia.
Qed.

(** Both engines on an image of numbers of the format, none larger in
    magnitude than [M] units of 2^-149: they return, and the largest
    absolute difference the checker finds is at most
    [2^16 * width * height * 2^-24 * M]. *)
Lemma sat_error_in_units setup (img : image) (width height runtimes : Z)
    (btype : BorderType) (me0 mre0 : float) (M : Z) :
  1 ≤ width ≤ 4096 → 1 ≤ height ≤ 4096 →
  Z.of_nat (length img) = width * height →
  Forall in_format img → Forall (λ x, Z.abs (units x) ≤ M) img →
  width * height * M ≤ 2 ^ 275 →
  ∃ cpu gpu me mre,
    Model.ref_sat_cpu img width height sat_weights 0 btype = Returned cpu
    ∧ outcome (sat (C := model_collaborators setup) img width height runtimes
                   sat_weights 0 btype) = Returned gpu
    ∧ Model.check_cpu_reference cpu gpu (int_mul width height) me0 mre0
      = Returned (me, mre)
    ∧ in_format me
    ∧ 2 ^ 24 * units me ≤ 2 ^ 16 * (width * height * M).
Proof.
  intros Hw Hh Hlen Hgood HM HB.
  set (W := Z.to_nat width). set (H := Z.to_nat height).
  set (cpu := Model.two_passes (Model.rec_filter w_sat (Model.zero_state w_sat)) W H img).
  set (gpu := Model.two_passes (Model.tiled_pass Model.TILE w_sat) W H img).
  assert (Hbad : Model.bad_config img width height 0 = false).
  { unfold Model.bad_config. rewrite Hlen, Z.eqb_refl.
    destruct (Z.ltb_spec width 0), (Z.ltb_spec height 0); lia || reflexivity. }
  assert (Hcpu : Model.ref_sat_cpu img width height sat_weights 0 btype = Returned cpu).
  { unfold Model.ref_sat_cpu. rewrite Hbad. cbv zeta.
    rewrite extend_no_pad by lia.
    replace (width + 2 * 0) with width by lia.
    replace (height + 2 * 0) with height by lia.
    change (Z.to_nat 0) with 0%nat. fold W H.
    rewrite crop_no_pad by apply length_two_passes. reflexivity. }
  assert (Hgpu : outcome (sat (C := model_collaborators setup) img width height
                              runtimes sat_weights 0 btype) = Returned gpu).
  { unfold sat. cbn [Z.eqb call outcome sat_gpu_false model_collaborators].
    unfold Model.sat_gpu_false. now rewrite Hbad. }
  exists cpu, gpu.
  set (sh := exact_of <$> img).
  assert (Hsh : Forall2 (approx 0) img sh).
  { unfold sh. apply Forall2_fmap_r, Forall_Forall2_diag.
    eapply Forall_impl; [exact Hgood|]. intros x. apply approx_exact. }
  assert (Hbs : bsum sh ≤ width * height * M).
  { unfold sh. rewrite <- Hlen. now apply bsum_exact_of. }
  set (C := 128 + 2 * Z.of_nat W + 2 * Z.of_nat H).
  assert (HC : 0 ≤ C ≤ 16512) by (unfold C, W, H; lia).
  assert (Hca : Forall2 (approx C) cpu (psat W H sh))
    by (apply two_passes_approx; [apply sequential_pass_ok|exact Hsh|fold C; lia|lia]).
  assert (Hga : Forall2 (approx C) gpu (psat W H sh))
    by (apply two_passes_approx; [apply tiled_pass_ok|exact Hsh|fold C; lia|lia]).
  pose proof (pixel_errors_bound C (bsum sh) cpu gpu _ Hca Hga (psat_bound W H sh)
                ltac:(lia) ltac:(lia)) as Herrs.
  unfold Model.check_cpu_reference.
  rewrite int_mul_exact by nia.
  rewrite !take_ge by (unfold cpu, gpu; rewrite length_two_passes; unfold W, H; nia).
  rewrite check_fold_pixel_errors.
  eexists _, _. split; [exact Hcpu|]. split; [exact Hgpu|]. split; [reflexivity|].
  pose proof (bsum_nonneg sh).
  assert (Hk : (2 * C + 2) * bsum sh ≤ 2 ^ 16 * (width * height * M)).
  { etrans; [apply (Z.mul_le_mono_nonneg_r _ (2 ^ 16)); lia|].
    apply Z.mul_le_mono_nonneg_l; lia. }
  destruct (fmax_fold_attained (pixel_abs_errors cpu gpu) F32.zero) as [Hin| ->].
  - rewrite Forall_forall in Herrs. destruct (Herrs _ Hin) as [Hg He].
    split; [exact Hg|]. etrans; [exact He|exact Hk].
  - split; [exact I|]. cbn [units]. etrans; [|exact Hk].
    apply Z.mul_nonneg_nonneg; lia.
Qed.

(** ** The error bound in terms of the values *)

Lemma binary32_in_format (x : float) : binary32 x = true → in_format x.
Proof. destruct x; cbn; try discriminate; easy. Qed.

Lemma unit_scale_pos : (0 < unit_scale)%Q.
Proof. reflexivity. Qed.

(** The value in units of 2^-149. *)
Lemma value_units (x : float) :
  in_format x → ∃ v, value x = Some v ∧ (v * unit_scale == inject_Z (units x))%Q.
Proof.
  intros Hx. destruct x as [s|s| |s m e]; try easy.
  - exists 0%Q. split; [reflexivity|]. cbn [units]. now rewrite Qmult_0_l.
  - pose proof (in_format_exponent _ _ _ Hx) as He.
    eexists. split; [reflexivity|]. cbn [units].
    assert (Hz : cond_Zopp s (Z.pos m * 2 ^ (e + 149))
                 = cond_Zopp s (Z.pos m) * 2 ^ (e + 149))
      by (destruct s; cbn [cond_Zopp]; lia).
    rewrite Hz, inject_Z_mult, Zpower_Qpower by lia.
    unfold unit_scale. rewrite (Zpower_Qpower 2 149) by lia.
    change (inject_Z 2) with 2%Q. rewrite Qpower_plus by easy. ring.
Qed.

Lemma magnitude_units (x : float) :
  in_format x → (magnitude x * unit_scale == inject_Z (Z.abs (units x)))%Q.
Proof.
  intros Hx. destruct (value_units x Hx) as (v & Hv & Heq).
  unfold magnitude. rewrite Hv.
  rewrite <- (Qabs_pos unit_scale) at 1 by (apply Qlt_le_weak, unit_scale_pos).
  rewrite <- Qabs_Qmult, Heq. unfold Qabs, inject_Z. reflexivity.
Qed.

Lemma max_abs_nonneg (img : image) : (0 <= max_abs img)%Q.
Proof.
  unfold max_abs. induction img as [|x img IH]; cbn [fmap list_fmap fold_right].
  - apply Qle_refl.
  - eapply Qle_trans; [exact IH|]. apply Q.le_max_r.
Qed.

Lemma max_abs_upper (img : image) (x : float) :
  x ∈ img → (magnitude x <= max_abs img)%Q.
Proof.
  unfold max_abs. induction img as [|y img IH]; intros Hx.
  - now apply elem_of_nil in Hx.
  - cbn [fmap list_fmap fold_right].
    apply elem_of_cons in Hx as [->|Hx]; [apply Q.le_max_l|].
    eapply Qle_trans; [now apply IH|]. apply Q.le_max_r.
Qed.

Lemma max_units_upper (img : image) :
  Forall (λ x, Z.abs (units x) ≤ max_units img) img.
Proof.
  unfold max_units. induction img as [|y img IH]; constructor;
    cbn [fmap list_fmap fold_right]; [lia|].
  eapply Forall_impl; [exact IH|]. intros x. cbn. lia.
Qed.

Lemma max_units_max_abs (img : image) :
  Forall in_format img → (inject_Z (max_units img) <= max_abs img * unit_scale)%Q.
Proof.
  intros Hgood.
  assert (Hcases : max_units img = 0 ∨ ∃ x, x ∈ img ∧ max_units img = Z.abs (units x)).
  { unfold max_units. clear Hgood. induction img as [|y img IH]; [now left|].
    cbn [fmap list_fmap fold_right].
    destruct (Z.max_spec (Z.abs (units y)) (fold_right Z.max 0 ((λ x, Z.abs (units x)) <$> img)))
      as [[_ ->]|[_ ->]].
    - destruct IH as [IH|(x & Hx & IH)]; [now left|].
      right. exists x. split; [now apply elem_of_cons; right|exact IH].
    - right. exists y. split; [apply elem_of_cons; now left|reflexivity]. }
  destruct Hcases as [->|(x & Hx & ->)].
  - apply Qmult_le_0_compat; [apply max_abs_nonneg|].
    apply Qlt_le_weak, unit_scale_pos.
  - rewrite Forall_forall in Hgood.
    rewrite <- (magnitude_units x) by now apply Hgood.
    apply Qmult_le_compat_r; [now apply max_abs_upper|].
    apply Qlt_le_weak, unit_scale_pos.
Qed.

Lemma Qmult_le_mono_l (a b c : Q) : (0 <= c → a <= b → c * a <= c * b)%Q.
Proof. intros. nra. Qed.

(** C1 (amended): on every image of finite samples with both dimensions in
    [1, 4096], no border, and [W * H * max|value|] at most 2^126 (so that no
    partial sum can overflow), both engines return, and the largest
    absolute difference between the image [sat] leaves (through sat_gpu) and
    the one [ref_sat_cpu] leaves, as the checker reports it, is at most
    [2^16 * W * H * eps * max|value|], with [eps] = 2^-24. *)
Theorem sat_error_bound setup (img : image) (width height runtimes : Z)
    (btype : BorderType) (me0 mre0 : float) :
  1 ≤ width ≤ 4096 → 1 ≤ height ≤ 4096 →
  Z.of_nat (length img) = width * height →
  Forall (λ x, binary32 x = true) img →
  (inject_Z width * inject_Z height * max_abs img <= 2 ^ 126)%Q →
  ∃ cpu gpu me mre,
    Model.ref_sat_cpu img width height sat_weights 0 btype = Returned cpu
    ∧ outcome (sat (C := model_collaborators setup) img width height runtimes
                   sat_weights 0 btype) = Returned gpu
    ∧ Model.check_cpu_reference cpu gpu (int_mul width height) me0 mre0
      = Returned (me, mre)
    ∧ at_most me (error_bound 65536 width height img).
Proof.
  intros Hw Hh Hlen Hbin HQ.
  assert (Hgood : Forall in_format img)
    by (eapply Forall_impl; [exact Hbin|]; exact binary32_in_format).
  pose proof (max_units_max_abs img Hgood) as HM.
  pose proof unit_scale_pos as Hs.
  assert (Ha : (inject_Z 1 <= inject_Z width)%Q) by (rewrite <- Zle_Qle; lia).
  assert (Hb : (inject_Z 1 <= inject_Z height)%Q) by (rewrite <- Zle_Qle; lia).
  change (inject_Z 1) with 1%Q in Ha, Hb.
  pose proof (max_abs_nonneg img) as Hx.
  assert (Hab : (0 <= inject_Z width * inject_Z height)%Q) by nra.
  assert (HB : width * height * max_units img ≤ 2 ^ 275).
  { rewrite Zle_Qle, !inject_Z_mult.
    change (inject_Z (2 ^ 275)) with (inject_Z (2 ^ 126) * unit_scale)%Q.
    rewrite (Zpower_Qpower 2 126) in * by lia. change (inject_Z 2) with 2%Q.
    eapply Qle_trans.
    - apply Qmult_le_mono_l; [exact Hab|exact HM].
    - rewrite Qmult_assoc. apply Qmult_le_compat_r; [exact HQ|].
      now apply Qlt_le_weak. }
  destruct (sat_error_in_units setup img width height runtimes btype me0 mre0
              (max_units img) Hw Hh Hlen Hgood (max_units_upper img) HB)
    as (cpu & gpu & me & mre & Hcpu & Hgpu & Hchk & Hgme & Hme).
  exists cpu, gpu, me, mre.
  split; [exact Hcpu|]. split; [exact Hgpu|]. split; [exact Hchk|].
  destruct (value_units me Hgme) as (v & Hv & Hvs).
  unfold at_most. rewrite Hv. unfold error_bound, eps.
  rewrite Zle_Qle, !inject_Z_mult, <- Hvs in Hme.
  apply (Qmult_le_r _ _ (inject_Z (2 ^ 24) * unit_scale)).
  - apply Qmult_lt_0_compat; [reflexivity|exact Hs].
  - eapply Qle_trans.
    + apply Qle_lteq. right.
      transitivity (inject_Z (2 ^ 24) * (v * unit_scale))%Q; [ring|reflexivity].
    + eapply Qle_trans; [exact Hme|].
      eapply Qle_trans.
      * apply Qmult_le_mono_l; [easy|].
        apply Qmult_le_mono_l; [exact Hab|exact HM].
      * apply Qle_lteq. right.
        change (inject_Z (2 ^ 16)) with 65536%Q.
        assert (He : (2 ^ (-24) * inject_Z (2 ^ 24) == 1)%Q) by reflexivity.
        transitivity (65536 * inject_Z width * inject_Z height
                      * (2 ^ (-24) * inject_Z (2 ^ 24)) * max_abs img * unit_scale)%Q;
          [rewrite He; ring|ring].
Qed.

(** On [rounding_line] the two engines differ (by 8 at the last pixel),
    within the bound. *)
Lemma sat_error_bound_witness :
  ∃ cpu gpu me mre,
    Model.ref_sat_cpu rounding_line 40 1 sat_weights 0 bt_zero = Returned cpu
    ∧ outcome (sat (C := fixture 1 0 bt_zero) rounding_line 40 1 1
                   sat_weights 0 bt_zero) = Returned gpu
    ∧ Model.check_cpu_reference cpu gpu (int_mul 40 1) F32.zero F32.zero
      = Returned (me, mre)
    ∧ at_most me (error_bound 65536 40 1 rounding_line).
Proof.
  apply (sat_error_bound (setup_with (locals_4x4 1 0 bt_zero)));
    [lia | lia | reflexivity | repeat constructor | vm_compute; discriminate].
Defined.

(** The two engines do differ on [rounding_line]: by 8, at the end of the
    line. *)
Example rounding_line_differs :
  ∃ mre,
    Model.check_cpu_reference
      (Model.two_passes (Model.rec_filter w_sat (Model.zero_state w_sat))
         40 1 rounding_line)
      (Model.two_passes (Model.tiled_pass Model.TILE w_sat) 40 1 rounding_line)
      40 F32.zero F32.zero
    = Returned (F32.of_Z 8, mre).
Proof. eexists. vm_compute. reflexivity. Qed.

(** C1 (as stated) fails for every constant: on [overflow_image], 64 x 1
    finite samples, the reference engine leaves finite sums, the second tile
    of the accelerated engine overflows, and the checker reports an
    infinite error. *)
Lemma tile_overflow_breaks_bound : ¬ ∃ K : Q, accuracy_claim K.
Proof.
  intros [K H].
  pose (cpu := Model.two_passes (Model.rec_filter w_sat (Model.zero_state w_sat))
                 64 1 overflow_image).
  pose (gpu := Model.two_passes (Model.tiled_pass Model.TILE w_sat)
                 64 1 overflow_image).
  assert (Hbin : Forall (λ x, binary32 x = true) overflow_image)
    by (repeat constructor).
  assert (Hcpu : Model.ref_sat_cpu overflow_image 64 1 sat_weights 0 bt_zero
                 = Returned cpu) by (vm_compute; reflexivity).
  assert (Hgpu : outcome (sat (C := fixture 1 0 bt_zero) overflow_image 64 1 1
                              sat_weights 0 bt_zero) = Returned gpu)
    by (vm_compute; reflexivity).
  assert (Hchk : Model.check_cpu_reference cpu gpu (int_mul 64 1) F32.zero F32.zero
                 = Returned (S754_infinity false, S754_infinity false))
    by (vm_compute; reflexivity).
  exact (H _ overflow_image 64 1 1 bt_zero F32.zero F32.zero cpu gpu _ _
           ltac:(lia) ltac:(lia) eq_refl Hbin Hcpu Hgpu Hchk).
Qed.
